(** * State-access layer of the contracting runtime

    A shallow embedding of [contracting/db/new_driver.py] (the raw driver,
    the per-execution cache overlay and the contract-namespaced driver) and of
    [contracting/storage/orm.py] (variables, hashes, foreign aliases and log
    events), with the properties the specification states about them. *)

From Stdlib Require Import ZArith Lia DecimalString.
From Stdlib Require Import Floats.SpecFloat.
From stdpp Require Import base option list gmap sets strings pretty sorting.

Local Open Scope string_scope.
Local Open Scope nat_scope.
Local Open Scope list_scope.
Set Warnings "-register-all".

(** ** Python values *)

(** Modelled from the spec: [contracting.stdlib.bridge.decimal] is not among
    the sources; a [ContractingDecimal] is a fixed-precision decimal, kept
    here as a coefficient and a power of ten. *)
Record ContractingDecimal := mkDecimal { dec_coefficient : Z; dec_exponent : Z }.

(** The values a contract can store.  Python's [None] is not one of them: an
    optional value [option val] is a Python object that may be [None]. *)
Inductive val :=
| VBool (b : bool)
| VInt (z : Z)
| VStr (s : string)
| VFloat (f : spec_float)
| VDecimal (d : ContractingDecimal)
| VBytes (b : string)
| VList (l : list val).

Abbreviation pyobj := (option val).

(** The classes [type(x)] can return on such objects. *)
Inductive pytype :=
| t_str | t_int | t_float | t_ContractingDecimal | t_bool
| t_NoneType | t_bytes | t_list.

Global Instance pytype_eq_dec : EqDecision pytype.
Proof. solve_decision. Defined.

Definition type_of (x : pyobj) : pytype :=
  match x with
  | None => t_NoneType
  | Some (VBool _) => t_bool
  | Some (VInt _) => t_int
  | Some (VStr _) => t_str
  | Some (VFloat _) => t_float
  | Some (VDecimal _) => t_ContractingDecimal
  | Some (VBytes _) => t_bytes
  | Some (VList _) => t_list
  end.

(** [issubclass(t, u)] on these classes: every class is a subclass of itself,
    and [bool] is a subclass of [int]. *)
Definition issubclass1 (t u : pytype) : bool :=
  bool_decide (t = u) || (bool_decide (t = t_bool) && bool_decide (u = t_int)).

(** [issubclass(t, (u1, ..., un))] and [isinstance(x, (u1, ..., un))]. *)
Definition issubclass (t : pytype) (us : list pytype) : bool :=
  existsb (issubclass1 t) us.
Definition isinstance (x : pyobj) (us : list pytype) : bool :=
  issubclass (type_of x) us.

(** ** Python strings *)

(** [s.startswith(p)] *)
Definition startswith (s p : string) : bool := String.prefix p s.

(** [sub in s] on strings *)
Fixpoint contains (sub s : string) : bool :=
  String.prefix sub s ||
  match s with
  | EmptyString => false
  | String _ s' => contains sub s'
  end.

(** [len(s)] *)
Abbreviation len := String.length.

(** [s[:-n]] for [n = len(d)]: Python reads [s[:-0]] as [s[:0]], the empty
    string; otherwise the last [n] characters are dropped (all of them when
    [n] exceeds the length). *)
Definition drop_last (n : nat) (s : string) : string :=
  match n with
  | O => ""
  | _ => String.substring 0 (len s - n) s
  end.

(** ** External collaborators *)

(** The value codec ([encode], [decode] of [contracting.db.encoder] and
    [encode_kv] of [contracting.storage.encoder]): [encode] renders a value,
    [decode] reads stored bytes back, and is handed [None] when the store has
    nothing under the key; [encode_kv] renders a key and a value at once. *)
Class Codec := {
  encode : val → string;
  decode : option string → pyobj;
  encode_kv : string → pyobj → string * string;
}.

(** [str] of floats and decimals and the decimal constructor from a string
    belong to the Python runtime and the decimal bridge. *)
Class Bridge := {
  str_float : spec_float → string;
  str_decimal : ContractingDecimal → string;
  decimal_of_str : string → ContractingDecimal;
}.

(** The key-space constants of [contracting.constants] and the [delimiter]
    attribute of the contract driver, none of which the sources define. *)
Class Constants := {
  DELIMITER : string;
  INDEX_SEPARATOR : string;
  MAX_KEY_SIZE : nat;
  MAX_HASH_DIMENSIONS : nat;
  driver_delimiter : string;
}.

(** ** The raw driver: [Driver] *)

(** Calls made on the RocksDB client, in the order they are made. *)
Inductive db_call :=
| db_get (k : string)
| db_set (k v : string)
| db_delete (k : string)
| db_seek (p : string)
| db_next
| db_flush.

(** The client behind [Driver.db]: the stored bytes by key, and the trace of
    the calls it has served. *)
Record Driver := mkDriver {
  db : gmap string string;
  db_calls : list db_call;
}.

Definition db_log (c : db_call) (d : Driver) : Driver :=
  mkDriver (db d) (db_calls d ++ [c]).

Section driver.
Context `{Codec}.

Definition Driver_get (item : string) (d : Driver) : pyobj * Driver :=
  let value := db d !! item in
  (decode value, db_log (db_get item) d).

Definition Driver_delitem (key : string) (d : Driver) : Driver :=
  db_log (db_delete key) (mkDriver (delete key (db d)) (db_calls d)).

Definition Driver_set (key : string) (value : pyobj) (d : Driver) : Driver :=
  match value with
  | None => Driver_delitem key d
  | Some x =>
      let v := encode x in
      db_log (db_set key v) (mkDriver (<[key := v]> (db d)) (db_calls d))
  end.

Definition Driver_delete (key : string) (d : Driver) : Driver :=
  Driver_delitem key d.

(** [db.seek(p)] places the cursor on the first key not below [p]; the
    cursor then yields the keys in ascending order.  The end-of-range
    sentinel [STOP_ITER_RESPONSE] is the exhausted cursor. *)
Definition seek (p : string) (d : Driver) : list string :=
  filter (λ k, (p ≤ k)%string) (merge_sort (≤)%string (elements (dom (db d)))).

(** The [while] loop of [Driver.iter]: one [db.next()] per round. *)
Fixpoint iter_loop (p : string) (length_ : nat) (cursor : list string)
    (l : list string) (d : Driver) : list string * Driver :=
  let d := db_log db_next d in
  match cursor with
  | [] => (l, d)
  | k :: cursor' =>
      if negb (startswith k p) then (l, d)
      else
        let l := l ++ [k] in
        if (0 <? length_)%nat && (length_ <=? List.length l)%nat then (l, d)
        else iter_loop p length_ cursor' l d
  end.

Definition Driver_iter (prefix : string) (length_ : nat) (d : Driver)
    : list string * Driver :=
  iter_loop prefix length_ (seek prefix d) [] (db_log (db_seek prefix) d).

Definition Driver_keys (d : Driver) : list string * Driver :=
  Driver_iter "" 0 d.

Definition Driver_flush (d : Driver) : Driver := db_log db_flush d.
End driver.

(** ** Keys, coordinates and their string forms *)

(** One dimension of a coordinate, as contract code can write it between the
    brackets of a hash: [None], a boolean, an integer, a string, a float, a
    decimal, or a slice [a:b:c] with integer or omitted bounds. *)
Inductive scalar :=
| SNone
| SBool (b : bool)
| SInt (z : Z)
| SStr (s : string)
| SFloat (f : spec_float)
| SDecimal (d : ContractingDecimal)
| SSlice (start stop step : option Z).

Definition repr_bound (o : option Z) : string :=
  match o with
  | None => "None"
  | Some z => pretty z
  end.

Section str.
Context `{Bridge}.

(** [str(k)] *)
Definition str (k : scalar) : string :=
  match k with
  | SNone => "None"
  | SBool true => "True"
  | SBool false => "False"
  | SInt z => pretty z
  | SStr s => s
  | SFloat f => str_float f
  | SDecimal d => str_decimal d
  | SSlice a b c =>
      "slice(" +:+ repr_bound a +:+ ", " +:+ repr_bound b +:+ ", "
               +:+ repr_bound c +:+ ")"
  end.
End str.

(** ** The cache overlay: [CacheDriver], and [ContractDriver] on top of it *)

(** Calls made on the metering hook [rt]. *)
Inductive rt_call :=
| deduct_read (k : string) (v : pyobj)
| deduct_write (k : string) (v : pyobj)
| deduct_write_kv (kv : string * string).

(** The record [LogEvent.write_event] hands to the driver. *)
Record Event := mkEvent {
  ev_contract : string;
  ev_event : string;
  ev_signer : string;
  ev_caller : string;
  ev_indexed_args : list (string * pyobj);
  ev_non_indexed_args : list (string * pyobj);
}.

(** A Python [dict] whose order matters is an association list in insertion
    order: assigning to a key that is present keeps its place. *)
Fixpoint dict_set {V} (k : string) (v : V) (d : list (string * V))
    : list (string * V) :=
  match d with
  | [] => [(k, v)]
  | (k', v') :: d' =>
      if decide (k = k') then (k, v) :: d' else (k', v') :: dict_set k v d'
  end.

Fixpoint dict_get {V} (k : string) (d : list (string * V)) : option V :=
  match d with
  | [] => None
  | (k', v') :: d' => if decide (k = k') then Some v' else dict_get k d'
  end.

(** One execution context: the driver instance with its cache, read set and
    pending writes, the metering hook and ambient context of the runtime
    [rt], and the event log behind [set_event]. *)
Record State := mkState {
  driver : Driver;
  cache : gmap string pyobj;
  reads : gset string;
  pending_writes : list (string * pyobj);
  rt_calls : list rt_call;
  rt_signer : string;
  rt_caller : string;
  events : list Event;
}.

Definition set_driver (d : Driver) (s : State) : State :=
  mkState d (cache s) (reads s) (pending_writes s) (rt_calls s)
          (rt_signer s) (rt_caller s) (events s).
Definition set_cache (c : gmap string pyobj) (s : State) : State :=
  mkState (driver s) c (reads s) (pending_writes s) (rt_calls s)
          (rt_signer s) (rt_caller s) (events s).
Definition set_reads (r : gset string) (s : State) : State :=
  mkState (driver s) (cache s) r (pending_writes s) (rt_calls s)
          (rt_signer s) (rt_caller s) (events s).
Definition set_pending_writes (p : list (string * pyobj)) (s : State) : State :=
  mkState (driver s) (cache s) (reads s) p (rt_calls s)
          (rt_signer s) (rt_caller s) (events s).
Definition rt_log (c : rt_call) (s : State) : State :=
  mkState (driver s) (cache s) (reads s) (pending_writes s) (rt_calls s ++ [c])
          (rt_signer s) (rt_caller s) (events s).
Definition add_event (e : Event) (s : State) : State :=
  mkState (driver s) (cache s) (reads s) (pending_writes s) (rt_calls s)
          (rt_signer s) (rt_caller s) (events s ++ [e]).

(** The third argument of [ContractDriver.make_key]: [None], a list, or some
    other sequence (a tuple). *)
Inductive key_args :=
| ArgsNone
| ArgsList (l : list scalar)
| ArgsTuple (l : list scalar).

Section cache_driver.
Context `{Codec, Bridge, Constants}.

(** [CacheDriver.get]; [print('here')] writes to the standard output only
    and is left out. *)
Definition CacheDriver_get (key : string) (s : State) : pyobj * State :=
  let v := default None (cache s !! key) in
  match v with
  | Some _ => (v, rt_log (deduct_read key v) s)
  | None =>
      let '(dv, d) := Driver_get key (driver s) in
      let s := set_driver d s in
      let s := rt_log (deduct_read key dv) s in
      let s := set_cache (<[key := dv]> (cache s)) s in
      let s := set_reads ({[key]} ∪ reads s) s in
      (dv, s)
  end.

Definition CacheDriver_set (key : string) (value : pyobj) (s : State) : State :=
  let s := rt_log (deduct_write key value) s in
  let s := set_cache (<[key := value]> (cache s)) s in
  set_pending_writes (dict_set key value (pending_writes s)) s.

Definition CacheDriver_commit (s : State) : State :=
  set_driver
    (foldl (λ d kv, Driver_set kv.1 kv.2 d) (driver s) (pending_writes s)) s.

Definition CacheDriver_clear_pending_state (s : State) : State :=
  set_pending_writes [] (set_reads ∅ (set_cache ∅ s)).

(** [ContractDriver.items].  The result is a dictionary read by key; the
    persisted keys left after the subtraction are visited in the order
    [elements] lists them, as Python visits a [set] in an order of its
    own. *)
Definition ContractDriver_items (prefix : string) (s : State)
    : gmap string pyobj * State :=
  let _items : gmap string pyobj :=
    filter (λ kv, startswith kv.1 prefix) (cache s) in
  let keys : gset string := dom _items in
  let '(l, d) := Driver_iter prefix 0 (driver s) in
  let db_keys : gset string := list_to_set l in
  let '(_items, d) :=
    foldl (λ '(acc, d) k, let '(v, d) := Driver_get k d in (<[k := v]> acc, d))
          (_items, d) (elements (db_keys ∖ keys)) in
  (_items, set_driver d s).

Definition ContractDriver_values (prefix : string) (s : State)
    : list pyobj * State :=
  let '(m, s) := ContractDriver_items prefix s in
  ((map_to_list m).*2, s).

Definition ContractDriver_make_key (key field : string) (args : key_args)
    : string :=
  let k := key +:+ driver_delimiter +:+ field in
  match args with
  | ArgsList l => foldl (λ k a, k +:+ (":" +:+ str a)) k l
  | _ => k
  end.

Definition ContractDriver_hget (key field : string) (s : State)
    : pyobj * State :=
  CacheDriver_get (ContractDriver_make_key key field ArgsNone) s.

Definition ContractDriver_hset (key field : string) (value : pyobj) (s : State)
    : State :=
  CacheDriver_set (ContractDriver_make_key key field ArgsNone) value s.
End cache_driver.

(** ** Exceptions and the monad of contract-facing operations *)

Inductive exn :=
| AssertionError (msg : string)
| ReferenceError
| Exception (msg : string).

(** A check that runs before any state is touched. *)
Inductive result (A : Type) :=
| Ok (a : A)
| Error (e : exn).
Global Arguments Ok {A} a.
Global Arguments Error {A} e.

(** An operation either returns, or raises; in both cases the state it leaves
    behind is part of the outcome, since Python does not undo the effects
    that precede a [raise]. *)
Inductive outcome (A : Type) :=
| Return (a : A) (s : State)
| Raise (e : exn) (s : State).
Global Arguments Return {A} a s.
Global Arguments Raise {A} e s.

Definition M (A : Type) : Type := State → outcome A.

Global Instance M_ret : MRet M := λ A a s, Return a s.
Global Instance M_bind : MBind M := λ A B f m s,
  match m s with
  | Return a s' => f a s'
  | Raise e s' => Raise e s'
  end.

Definition raise {A} (e : exn) : M A := λ s, Raise e s.
Definition assert (b : bool) (msg : string) : M () :=
  if b then mret () else raise (AssertionError msg).
Definition check {A} (r : result A) : M A :=
  match r with
  | Ok a => mret a
  | Error e => raise e
  end.
(** A driver method that returns a value, and one that returns nothing. *)
Definition call {A} (f : State → A * State) : M A :=
  λ s, let '(a, s') := f s in Return a s'.
Definition call_ (f : State → State) : M () := λ s, Return () (f s).

(** [for x in l: body(x)] *)
Fixpoint for_each {A} (l : list A) (body : A → M ()) : M () :=
  match l with
  | [] => mret ()
  | x :: l' => body x ;; for_each l' body
  end.

(** [repr] of a class, as an f-string renders it. *)
Definition repr_type (t : pytype) : string :=
  "<class '" +:+
  match t with
  | t_str => "str"
  | t_int => "int"
  | t_float => "float"
  | t_ContractingDecimal => "contracting.stdlib.bridge.decimal.ContractingDecimal"
  | t_bool => "bool"
  | t_NoneType => "NoneType"
  | t_bytes => "bytes"
  | t_list => "list"
  end +:+ "'>".

(** [repr] of a tuple of classes: a one-element tuple keeps its comma. *)
Definition repr_types (ts : list pytype) : string :=
  match ts with
  | [] => "()"
  | [t] => "(" +:+ repr_type t +:+ ",)"
  | t :: ts' =>
      "(" +:+ foldl (λ acc u, acc +:+ ", " +:+ repr_type u) (repr_type t) ts'
          +:+ ")"
  end.

(** ** The bindings of [orm.py] *)

(** A coordinate between the brackets of a hash: one object, or a tuple. *)
Inductive hash_key :=
| KeyScalar (k : scalar)
| KeyTuple (l : list scalar).

Definition is_slice (k : scalar) : bool :=
  match k with
  | SSlice _ _ _ => true
  | _ => false
  end.

(** [Variable] is a reserved word here, hence the underscore. *)
Record Variable_ := mkVariable {
  var_key : string;
  var_type : option pytype;
}.

Record Hash := mkHash {
  hash_key_ : string;
  hash_delimiter : string;
  hash_default_value : pyobj;
}.

Record ForeignHash := mkForeignHash { fh_base : Hash }.

Section orm.
Context `{Codec, Bridge, Constants}.

(** Modelled from the spec: the driver class [orm.py] imports
    ([contracting.storage.driver]) is not among the sources.  The bindings
    run over the [ContractDriver] above, the spec's namespaced driver: its
    [set] takes the key and the value (the third positional argument the
    bindings pass, a flag, has no counterpart there), and [delete(key)] is
    the write of [None], which the spec defines as deletion. *)
Definition ContractDriver_delete (key : string) (s : State) : State :=
  CacheDriver_set key None s.

(** Modelled from the spec: [set_event], absent from the sources, appends
    the record to the append-only event log. *)
Definition ContractDriver_set_event (e : Event) (s : State) : State :=
  add_event e s.

(** [Datum.__init__] *)
Definition Datum_key (contract name : string) : string :=
  ContractDriver_make_key contract name ArgsNone.

(** *** [Variable] *)

Definition Variable_init (contract name : string) (t : option pytype)
    : Variable_ :=
  mkVariable (Datum_key contract name) t.

Definition Variable_set (v : Variable_) (value : pyobj) : M () :=
  match var_type v with
  | Some t =>
      assert (isinstance value [t])
        ("Wrong type passed to variable! Expected " +:+ repr_type t
           +:+ ", got " +:+ repr_type (type_of value) +:+ ".")
  | None => mret ()
  end ;;
  call_ (CacheDriver_set (var_key v) value).

Definition Variable_get (v : Variable_) : M pyobj :=
  call (CacheDriver_get (var_key v)).

(** *** [Hash] *)

Definition Hash_init (contract name : string) (default_value : pyobj) : Hash :=
  mkHash (Datum_key contract name) DELIMITER default_value.

Definition Hash__set (h : Hash) (key : string) (value : pyobj) : M () :=
  call_ (CacheDriver_set (hash_key_ h +:+ hash_delimiter h +:+ key) value).

(** The tail of [Hash._get]: floats and decimals leave as decimals. *)
Definition normalize (value : pyobj) : pyobj :=
  match value with
  | Some (VFloat f) => Some (VDecimal (decimal_of_str (str_float f)))
  | Some (VDecimal d) => Some (VDecimal (decimal_of_str (str_decimal d)))
  | _ => value
  end.

Definition Hash__get (h : Hash) (item : string) : M pyobj :=
  value ← call (CacheDriver_get (hash_key_ h +:+ hash_delimiter h +:+ item));
  let value :=
    match value with
    | None => hash_default_value h
    | Some _ => value
    end in
  mret (normalize value).

(** The body of the [for k in key] loop of [_validate_key], with the
    string built so far. *)
Fixpoint validate_dims (delimiter : string) (key : list scalar)
    (new_key_str : string) : result string :=
  match key with
  | [] => Ok new_key_str
  | k :: key' =>
      if is_slice k then Error (AssertionError "Slices prohibited in hashes.")
      else
        let k := str k in
        if contains DELIMITER k
        then Error (AssertionError "Illegal delimiter in key.")
        else if contains INDEX_SEPARATOR k
        then Error (AssertionError "Illegal separator in key.")
        else validate_dims delimiter key' (new_key_str +:+ k +:+ delimiter)
  end.

Definition check_key_size (key : string) : result string :=
  if (len key <=? MAX_KEY_SIZE)%nat then Ok key
  else Error (AssertionError
    ("Key is too long (" +:+ pretty (len key) +:+ "). Max is "
       +:+ pretty MAX_KEY_SIZE +:+ "."))%string.

Definition Hash__validate_key (h : Hash) (key : hash_key) : result string :=
  match key with
  | KeyTuple key =>
      if (length key <=? MAX_HASH_DIMENSIONS)%nat then
        match validate_dims (hash_delimiter h) key "" with
        | Ok new_key_str =>
            check_key_size (drop_last (len (hash_delimiter h)) new_key_str)
        | Error e => Error e
        end
      else Error (AssertionError
        ("Too many dimensions (" +:+ pretty (length key)
           +:+ ") for hash. Max is " +:+ pretty MAX_HASH_DIMENSIONS))
  | KeyScalar key =>
      let key := str key in
      if contains DELIMITER key
      then Error (AssertionError "Illegal delimiter in key.")
      else if contains INDEX_SEPARATOR key
      then Error (AssertionError "Illegal separator in key.")
      else check_key_size key
  end.

(** [args] is the tuple of the positional arguments of [all], [_items] and
    [clear]. *)
Definition Hash__prefix_for_args (h : Hash) (args : list scalar)
    : result string :=
  match Hash__validate_key h (KeyTuple args) with
  | Ok multi =>
      let prefix := hash_key_ h +:+ hash_delimiter h in
      Ok (if decide (multi ≠ "") then prefix +:+ multi +:+ hash_delimiter h
          else prefix)
  | Error e => Error e
  end.

Definition Hash_all (h : Hash) (args : list scalar) : M (list pyobj) :=
  prefix ← check (Hash__prefix_for_args h args);
  call (ContractDriver_values prefix).

Definition Hash__items (h : Hash) (args : list scalar)
    : M (gmap string pyobj) :=
  prefix ← check (Hash__prefix_for_args h args);
  call (ContractDriver_items prefix).

Definition Hash_clear (h : Hash) (args : list scalar) : M () :=
  kvs ← Hash__items h args;
  for_each (map_to_list kvs).*1 (λ k, call_ (ContractDriver_delete k)).

Definition Hash_setitem (h : Hash) (key : hash_key) (value : pyobj) : M () :=
  key ← check (Hash__validate_key h key);
  Hash__set h key value.

Definition Hash_getitem (h : Hash) (key : hash_key) : M pyobj :=
  key ← check (Hash__validate_key h key);
  Hash__get h key.

(** *** [ForeignVariable] and [ForeignHash] *)




Definition ForeignHash_init
    (contract name foreign_contract foreign_name : string) : ForeignHash :=
  let super := Hash_init contract name None in
  mkForeignHash
    (mkHash (Datum_key foreign_contract foreign_name)
            (hash_delimiter super) (hash_default_value super)).


Definition ForeignHash_setitem (f : ForeignHash) (key : hash_key)
    (value : pyobj) : M () :=
  raise ReferenceError.

Definition ForeignHash_getitem (f : ForeignHash) (item : hash_key) : M pyobj :=
  Hash_getitem (fh_base f) item.

Definition ForeignHash__get (f : ForeignHash) (item : string) : M pyobj :=
  Hash__get (fh_base f) item.

Definition ForeignHash_all (f : ForeignHash) (args : list scalar)
    : M (list pyobj) :=
  Hash_all (fh_base f) args.


End orm.

(** *** [LogEvent] *)

(** The ['type'] entry of a schema argument: one class, or a tuple. *)
Inductive type_decl :=
| OneType (t : pytype)
| TypeTuple (ts : list pytype).

(** One schema argument: its ['type'], and its ['idx'] flag when given. *)
Record arg_spec := mkArg {
  arg_type : type_decl;
  arg_idx : option bool;
}.

Record LogEvent := mkLogEvent {
  le_key : string;
  le_args : list (string * arg_spec);
  le_contract : string;
  le_name : string;
}.

Definition as_tuple (d : type_decl) : list pytype :=
  match d with
  | OneType t => [t]
  | TypeTuple ts => ts
  end.

Definition allowed_types : list pytype :=
  [t_str; t_int; t_float; t_ContractingDecimal; t_bool].

(** [arg.get('idx', False)], read as a condition. *)
Definition is_indexed (a : arg_spec) : bool := default false (arg_idx a).

(** [self._args[arg]['type']] and [self._args[arg].get('idx', False)] *)
Definition types_for (args : list (string * arg_spec)) (arg : string)
    : list pytype :=
  from_option (λ a, as_tuple (arg_type a)) [] (dict_get arg args).
Definition indexed_for (args : list (string * arg_spec)) (arg : string) : bool :=
  from_option is_indexed false (dict_get arg args).

(** [event_data[arg]], read after [arg in event_data] has been asserted. *)
Definition getitem (event_data : gmap string pyobj) (arg : string) : pyobj :=
  default None (event_data !! arg).

Definition gets {A} (f : State → A) : M A := λ s, Return (f s) s.

Section log_event.
Context `{Codec, Bridge, Constants}.

(** The [for arg in args.values()] loop of the constructor: every ['type']
    becomes a tuple, and every class in it must be an allowed one.  The
    length check that follows in the source is guarded by
    [isinstance(arg['type'], str)], which no tuple satisfies. *)
Fixpoint check_types (args : list (string * arg_spec))
    : result (list (string * arg_spec)) :=
  match args with
  | [] => Ok []
  | (name, arg) :: args' =>
      let ts := as_tuple (arg_type arg) in
      if forallb (λ t, issubclass t allowed_types) ts then
        match check_types args' with
        | Ok r => Ok ((name, mkArg (TypeTuple ts) (arg_idx arg)) :: r)
        | Error e => Error e
        end
      else Error (AssertionError
        "Each type in args must be str, int, float, ContractingDecimal, or bool.")
  end.

Definition indexed_args_count (args : list (string * arg_spec)) : nat :=
  length (filter (λ a, is_indexed a.2) args).

Definition LogEvent_init (contract name : string)
    (args : list (string * arg_spec)) : result LogEvent :=
  if (0 <? length args)%nat then
    if (indexed_args_count args <=? 3)%nat then
      match check_types args with
      | Ok args' => Ok (mkLogEvent (Datum_key contract name) args' contract name)
      | Error e => Error e
      end
    else Error (AssertionError "Args must have at most three indexed arguments.")
  else Error (AssertionError "Args must have at least one argument.").

Definition wrong_type (label arg : string) (expected : list pytype)
    (value : pyobj) : string :=
  label +:+ arg +:+ " is the wrong type! Expected " +:+ repr_types expected
        +:+ ", got " +:+ repr_type (type_of value) +:+ ".".

(** The two closing loops: check again, encode, meter. *)
Definition emit_args (le : LogEvent) (label : string)
    (group : list (string * pyobj)) : M () :=
  for_each group (λ '(arg, value),
    assert (isinstance value (types_for (le_args le) arg))
           (wrong_type label arg (types_for (le_args le) arg) value) ;;
    call_ (rt_log (deduct_write_kv (encode_kv arg value)))).

Definition LogEvent_write_event (le : LogEvent)
    (event_data : gmap string pyobj) : M () :=
  assert (bool_decide (size event_data = length (le_args le)))
    "Data must have the same number of arguments as specified in the event." ;;
  for_each (le_args le).*1 (λ arg,
    assert (bool_decide (is_Some (event_data !! arg)))
      ("Argument " +:+ arg +:+ " is missing from the data dictionary.") ;;
    assert (isinstance (getitem event_data arg) (types_for (le_args le) arg))
      (wrong_type "Argument " arg (types_for (le_args le) arg)
                  (getitem event_data arg))) ;;
  signer ← gets rt_signer;
  caller ← gets rt_caller;
  let event := mkEvent (le_contract le) (le_name le) signer caller
    (map (λ arg, (arg, getitem event_data arg))
         (filter (λ arg, indexed_for (le_args le) arg) (le_args le).*1))
    (map (λ arg, (arg, getitem event_data arg))
         (filter (λ arg, negb (indexed_for (le_args le) arg)) (le_args le).*1)) in
  emit_args le "Indexed argument " (ev_indexed_args event) ;;
  emit_args le "Non-indexed argument " (ev_non_indexed_args event) ;;
  call_ (ContractDriver_set_event event).

Definition LogEvent_call (le : LogEvent) (data : gmap string pyobj) : M () :=
  LogEvent_write_event le data.
End log_event.

(** ** Sequences of calls on one execution context *)

(** The calls a context receives on its driver between two points. *)
Inductive op :=
| op_get (k : string)
| op_set (k : string) (v : pyobj)
| op_commit
| op_items (prefix : string)
| op_values (prefix : string)
| op_clear_pending_state.

Section run.
Context `{Codec}.

Definition run_op (o : op) (s : State) : State :=
  match o with
  | op_get k => (CacheDriver_get k s).2
  | op_set k v => CacheDriver_set k v s
  | op_commit => CacheDriver_commit s
  | op_items p => (ContractDriver_items p s).2
  | op_values p => (ContractDriver_values p s).2
  | op_clear_pending_state => CacheDriver_clear_pending_state s
  end.

Definition run (ops : list op) (s : State) : State :=
  foldl (λ s o, run_op o s) s ops.

(** How many calls of the raw driver the [get(k)] calls of a run make. *)
Fixpoint get_fetches (k : string) (ops : list op) (s : State) : nat :=
  match ops with
  | [] => 0
  | o :: ops' =>
      match o with
      | op_get k' =>
          if decide (k' = k)
          then length (db_calls (driver (run_op o s)))
               - length (db_calls (driver s))
          else 0
      | _ => 0
      end + get_fetches k ops' (run_op o s)
  end.

(** The call [Driver.set] makes on the client for one pending write. *)
Definition write_call (kv : string * pyobj) : db_call :=
  match kv.2 with
  | None => db_delete kv.1
  | Some x => db_set kv.1 (encode x)
  end.

(** The stored bytes after the writes of [l], in order. *)
Definition apply_writes (l : list (string * pyobj)) (m : gmap string string)
    : gmap string string :=
  foldl (λ m kv, match kv.2 with
                 | None => delete kv.1 m
                 | Some x => <[kv.1 := encode x]> m
                 end) m l.

(** The last write of [l] on [k], if any: the bytes it leaves, or none
    for a deletion. *)
Definition last_write (k : string) (l : list (string * pyobj))
    (acc : option (option string)) : option (option string) :=
  foldl (λ acc kv, if decide (k = kv.1) then Some (encode <$> kv.2) else acc)
        acc l.
End run.

(** An [op] leaves the cached value of [k] in place: it is not a reset, and
    not a write of [None] on [k]. *)
Definition keeps (k : string) (o : op) : bool :=
  match o with
  | op_clear_pending_state => false
  | op_set k' None => bool_decide (k' ≠ k)
  | _ => true
  end.

(** An [op] does not write [k] at all, and is not a reset. *)
Definition untouched (k : string) (o : op) : bool :=
  match o with
  | op_clear_pending_state => false
  | op_set k' _ => bool_decide (k' ≠ k)
  | _ => true
  end.

(** A key is cached with a value other than [None]. *)
Definition hit (k : string) (s : State) : Prop :=
  ∃ v, cache s !! k = Some (Some v).

(** ** Coordinates, as the specification reads them *)

Section coordinates.
Context `{Bridge, Constants}.

(** The dimensions of a coordinate. *)
Definition coord_dims (key : hash_key) : list scalar :=
  match key with
  | KeyScalar k => [k]
  | KeyTuple l => l
  end.

(** The composed coordinate string: the string forms of the dimensions,
    joined by the delimiter. *)
Definition coord_string (delimiter : string) (key : hash_key) : string :=
  String.concat delimiter (map str (coord_dims key)).

(** A dimension whose string form holds one of the two delimiters. *)
Definition illegal (k : scalar) : bool :=
  contains DELIMITER (str k) || contains INDEX_SEPARATOR (str k).

Definition too_many_dimensions (key : hash_key) : bool :=
  match key with
  | KeyScalar _ => false
  | KeyTuple l => MAX_HASH_DIMENSIONS <? length l
  end.

Definition has_slice (key : hash_key) : bool :=
  match key with
  | KeyScalar _ => false
  | KeyTuple l => existsb is_slice l
  end.

Definition too_long (delimiter : string) (key : hash_key) : bool :=
  MAX_KEY_SIZE <? len (coord_string delimiter key).

(** The coordinates [_validate_key] turns down. *)
Definition invalid_key (h : Hash) (key : hash_key) : bool :=
  too_many_dimensions key || has_slice key
  || existsb illegal (coord_dims key)
  || too_long (hash_delimiter h) key.
End coordinates.

(** ** Event schemas and event data, as the specification reads them *)

(** A schema the constructor turns down: empty, more than three indexed
    arguments, or a declared class outside the allowed ones. *)
Definition schema_rejected (args : list (string * arg_spec)) : bool :=
  (length args =? 0)
  || (3 <? length (filter (λ a : string * arg_spec, is_indexed a.2) args))
  || existsb (λ a : string * arg_spec,
       existsb (λ t, negb (bool_decide (t ∈ allowed_types)))
               (as_tuple (arg_type a.2))) args.

(** A schema argument the data does not serve: it is missing, or its value
    is not an instance of the classes declared for it. *)
Definition offending (args : list (string * arg_spec))
    (event_data : gmap string pyobj) (arg : string) : bool :=
  negb (bool_decide (is_Some (event_data !! arg)))
  || negb (isinstance (getitem event_data arg) (types_for args arg)).

(** What the assertion that stops on such an argument says. *)
Definition offence (args : list (string * arg_spec))
    (event_data : gmap string pyobj) (arg : string) : string :=
  if bool_decide (is_Some (event_data !! arg))
  then "Argument " +:+ arg +:+ " is the wrong type! Expected "
         +:+ repr_types (types_for args arg) +:+ ", got "
         +:+ repr_type (type_of (getitem event_data arg)) +:+ "."
  else "Argument " +:+ arg +:+ " is missing from the data dictionary.".

(** Event data [write_event] turns down. *)
Definition data_rejected (le : LogEvent) (event_data : gmap string pyobj) : bool :=
  negb (bool_decide (size event_data = length (le_args le)))
  || existsb (offending (le_args le) event_data) (le_args le).*1.

(** The arguments of one group, in schema order, with their values. *)
Definition group (le : LogEvent) (event_data : gmap string pyobj) (idx : bool)
    : list (string * pyobj) :=
  map (λ arg, (arg, getitem event_data arg))
      (filter (λ arg, Is_true (if idx then indexed_for (le_args le) arg
                               else negb (indexed_for (le_args le) arg)))
              (le_args le).*1).

(** A schema as the constructor keeps it: every ['type'] a tuple. *)
Definition normalized (args : list (string * arg_spec))
    : list (string * arg_spec) :=
  map (λ a, (a.1, mkArg (TypeTuple (as_tuple (arg_type a.2))) (arg_idx a.2))) args.

(** The metering call [write_event] makes for one argument. *)
Definition meter_kv `{Codec} (kv : string * pyobj) : rt_call :=
  deduct_write_kv (encode_kv kv.1 kv.2).

(** An operation raises [e] on [s] and leaves [s] as it was. *)
Definition fails_clean {A} (m : M A) (s : State) (e : exn) : Prop :=
  m s = Raise e s.

(** An operation returns on [s]. *)
Definition returns {A} (m : M A) (s : State) : Prop :=
  ∃ a s', m s = Return a s'.

(** ** The item interface of the raw driver *)

(** The exception of [Driver.__getitem__]. *)
Inductive key_error := KeyError.

Section driver_items.
Context `{Codec}.

(** [Driver.__getitem__] *)
Definition Driver_getitem (item : string) (d : Driver)
    : (key_error + val) * Driver :=
  let '(value, d) := Driver_get item d in
  match value with
  | None => (inl KeyError, d)
  | Some v => (inr v, d)
  end.

(** [Driver.__setitem__] *)
Definition Driver_setitem (key : string) (value : pyobj) (d : Driver) : Driver :=
  Driver_set key value d.
End driver_items.

(** ** Well-formed contexts and kinds of calls *)

(** The pending writes name every key once, a pending write of a value is
    what the cache holds for its key, and every key that was read is
    cached. *)
Definition coherent (s : State) : Prop :=
  NoDup (pending_writes s).*1 ∧
  (∀ k v, dict_get k (pending_writes s) = Some (Some v) →
          cache s !! k = Some (Some v)) ∧
  reads s ⊆ dom (cache s).

Definition is_commit (o : op) : bool :=
  match o with
  | op_commit => true
  | _ => false
  end.

(** The calls that go through the metering hook. *)
Definition metered (o : op) : bool :=
  match o with
  | op_get _ | op_set _ _ => true
  | _ => false
  end.

(** The calls on the client that change what it stores. *)
Definition is_write_call (c : db_call) : bool :=
  match c with
  | db_set _ _ | db_delete _ => true
  | _ => false
  end.

(** The driver [d'] is [d] after calls that only read. *)
Definition only_read (d d' : Driver) : Prop :=
  db d' = db d ∧
  ∃ new, db_calls d' = db_calls d ++ new ∧
         Forall (λ c, is_write_call c = false) new.

(** ** A concrete setting *)

(** The key-space constants as the unit tests show them: keys read
    [blah.scoob:stu:raghu], a coordinate of 1025 characters is too long, and
    eighteen dimensions are too many. *)
Definition test_constants : Constants := {|
  DELIMITER := ":";
  INDEX_SEPARATOR := ".";
  MAX_KEY_SIZE := 1024;
  MAX_HASH_DIMENSIONS := 16;
  driver_delimiter := ".";
|}.

(** A small codec: integers in decimal, strings as they are. *)
Definition test_encode (v : val) : string :=
  match v with
  | VInt z => pretty z
  | VStr s => s
  | VBytes b => b
  | VBool true => "true"
  | VBool false => "false"
  | _ => "null"
  end.
Definition test_decode (b : option string) : pyobj :=
  match b with
  | None => None
  | Some s =>
      match NilZero.int_of_string s with
      | Some i => Some (VInt (Z.of_int i))
      | None => Some (VStr s)
      end
  end.
Definition test_codec : Codec := {|
  encode := test_encode;
  decode := test_decode;
  encode_kv := λ k v, (k, from_option test_encode "null" v);
|}.

(** Floats and decimals are not exercised by the concrete runs. *)
Definition test_bridge : Bridge := {|
  str_float := λ _, "0.0";
  str_decimal := λ d, pretty (dec_coefficient d) +:+ "e" +:+ pretty (dec_exponent d);
  decimal_of_str := λ _, mkDecimal 0 0;
|}.

(** A fresh execution context over an empty store. *)
Definition fresh : State :=
  mkState (mkDriver ∅ []) ∅ ∅ [] [] "stu" "stu" [].

(** The state an operation leaves, and the value it returns if it does. *)
Definition exec {A} (m : M A) (s : State) : State :=
  match m s with
  | Return _ s' => s'
  | Raise _ s' => s'
  end.
Definition eval {A} (m : M A) (s : State) : option A :=
  match m s with
  | Return a _ => Some a
  | Raise _ _ => None
  end.

(** [s * n] *)
Fixpoint repeat_str (s : string) (n : nat) : string :=
  match n with
  | O => ""
  | S n' => s +:+ repeat_str s n'
  end.

(** * Properties *)

(** ** The cache overlay *)

Section cache_facts.
Context `{Codec}.

Lemma CacheDriver_get_hit k v s :
  cache s !! k = Some (Some v) →
  CacheDriver_get k s = (Some v, rt_log (deduct_read k (Some v)) s).
Proof. intros Hc. unfold CacheDriver_get. by rewrite Hc. Qed.

Lemma CacheDriver_get_miss k s :
  default None (cache s !! k) = None →
  CacheDriver_get k s =
    (decode (db (driver s) !! k),
     set_reads ({[k]} ∪ reads s)
       (set_cache (<[k := decode (db (driver s) !! k)]> (cache s))
          (rt_log (deduct_read k (decode (db (driver s) !! k)))
             (set_driver (db_log (db_get k) (driver s)) s)))).
Proof. intros Hc. unfold CacheDriver_get. by rewrite Hc. Qed.

Lemma CacheDriver_get_cache_ne k k' s :
  k' ≠ k → cache (CacheDriver_get k' s).2 !! k = cache s !! k.
Proof.
  intros Hne. unfold CacheDriver_get.
  destruct (default None (cache s !! k')); simpl; [done|].
  by rewrite lookup_insert_ne.
Qed.

Lemma items_cache p s : cache (ContractDriver_items p s).2 = cache s.
Proof.
  unfold ContractDriver_items.
  destruct (Driver_iter p 0 (driver s)) as [l d].
  by destruct (foldl _ _ _).
Qed.

Lemma values_cache p s : cache (ContractDriver_values p s).2 = cache s.
Proof.
  unfold ContractDriver_values.
  pose proof (items_cache p s) as Hc.
  by destruct (ContractDriver_items p s).
Qed.

(** A call that does not write [k] leaves its cached value where it is. *)
Lemma untouched_cache k v o s :
  untouched k o →
  cache s !! k = Some (Some v) →
  cache (run_op o s) !! k = Some (Some v).
Proof.
  intros Hu Hc. destruct o as [k'|k' v'| |p|p|]; simpl in *.
  - destruct (decide (k' = k)) as [->|Hne].
    + by rewrite (CacheDriver_get_hit _ _ _ Hc).
    + by rewrite CacheDriver_get_cache_ne.
  - apply bool_decide_unpack in Hu. by rewrite lookup_insert_ne.
  - done.
  - by rewrite items_cache.
  - by rewrite values_cache.
  - done.
Qed.

Lemma untouched_run k v ops s :
  Forall (λ o, untouched k o) ops →
  cache s !! k = Some (Some v) →
  cache (run ops s) !! k = Some (Some v).
Proof.
  intros Hops. revert s.
  induction Hops as [|o ops Ho _ IH]; intros s Hc; [done|].
  apply IH. by apply untouched_cache.
Qed.

(** A call that neither resets the context nor writes [None] on [k] keeps
    [k] cached with a value. *)
Lemma keeps_hit k o s : keeps k o → hit k s → hit k (run_op o s).
Proof.
  intros Hk [v Hc]. destruct o as [k'|k' v'| |p|p|]; simpl in *.
  - exists v. destruct (decide (k' = k)) as [->|Hne].
    + by rewrite (CacheDriver_get_hit _ _ _ Hc).
    + by rewrite CacheDriver_get_cache_ne.
  - destruct (decide (k' = k)) as [->|Hne].
    + destruct v' as [x|]; [|by apply bool_decide_unpack in Hk].
      exists x. simpl. by rewrite lookup_insert_eq.
    + exists v. simpl. by rewrite lookup_insert_ne.
  - by exists v.
  - exists v. by rewrite items_cache.
  - exists v. by rewrite values_cache.
  - done.
Qed.

Lemma hit_no_fetch k s :
  hit k s → driver (CacheDriver_get k s).2 = driver s.
Proof. intros [v Hc]. by rewrite (CacheDriver_get_hit _ _ _ Hc). Qed.

Lemma get_fetches_hit k ops s :
  Forall (λ o, keeps k o) ops → hit k s → get_fetches k ops s = 0.
Proof.
  intros Hops. revert s.
  induction Hops as [|o ops Ho _ IH]; intros s Hh; [done|].
  simpl. rewrite IH by by apply keeps_hit.
  destruct o as [k'| | | | |]; try done.
  destruct (decide (k' = k)) as [->|]; [|done].
  simpl. rewrite hit_no_fetch by done. lia.
Qed.

Lemma keeps_run k ops s :
  Forall (λ o, keeps k o) ops → hit k s → hit k (run ops s).
Proof.
  intros Hops. revert s.
  induction Hops as [|o ops Ho _ IH]; intros s Hh; [done|].
  apply IH. by apply keeps_hit.
Qed.

(** What a [get] returns, other than [None], is cached afterwards. *)
Lemma CacheDriver_get_caches k v s :
  (CacheDriver_get k s).1 = Some v → hit k (CacheDriver_get k s).2.
Proof.
  unfold CacheDriver_get.
  destruct (cache s !! k) as [[x|]|] eqn:Hc; simpl.
  - intros _. by exists x.
  - intros Hd. exists v. simpl. by rewrite lookup_insert_eq, Hd.
  - intros Hd. exists v. simpl. by rewrite lookup_insert_eq, Hd.
Qed.

(** C1. Read-your-own-writes: after [set(k, v)] with a value [v], and after
    any further calls of the context that neither write [k] nor reset the
    context, [get(k)] returns [v] and the raw driver is left as it was: the
    [get] makes no call on the backing store, and neither did the [set]. *)
Theorem C1_read_your_own_writes (k : string) (v : val) (ops : list op)
    (s : State) :
  Forall (λ o, untouched k o) ops →
  let s1 := CacheDriver_set k (Some v) s in
  let s2 := run ops s1 in
  driver s1 = driver s ∧
  (CacheDriver_get k s2).1 = Some v ∧
  driver (CacheDriver_get k s2).2 = driver s2.
Proof.
  intros Hops s1 s2. split; [done|].
  assert (cache s2 !! k = Some (Some v)) as Hc.
  { apply untouched_run; [done|]. simpl. by rewrite lookup_insert_eq. }
  by rewrite (CacheDriver_get_hit _ _ _ Hc).
Qed.

(** C2, as amended. Once a [get(k)] has returned a value other than [None]
    (fetched or cached), every later [get(k)] of the context is served from
    the cache: through any further calls that neither reset the context nor
    write [None] on [k], the [get(k)] calls among them make no call on the
    raw driver, and neither does one more [get(k)] after them. *)
Theorem C2_one_fetch_when_present (k : string) (v : val) (ops : list op)
    (s : State) :
  (CacheDriver_get k s).1 = Some v →
  Forall (λ o, keeps k o) ops →
  let s1 := (CacheDriver_get k s).2 in
  let s2 := run ops s1 in
  length (db_calls (driver s1)) ≤ S (length (db_calls (driver s))) ∧
  get_fetches k ops s1 = 0 ∧
  driver (CacheDriver_get k s2).2 = driver s2.
Proof.
  intros Hv Hops s1 s2.
  assert (hit k s1) as Hh by by eapply CacheDriver_get_caches.
  split_and!.
  - unfold s1, CacheDriver_get.
    destruct (default None (cache s !! k)); simpl; [lia|].
    rewrite length_app. simpl. lia.
  - by apply get_fetches_hit.
  - apply hit_no_fetch. by apply keeps_run.
Qed.
End cache_facts.

(** ** Commit *)

Section commit_facts.
Context `{Codec}.

Lemma Driver_set_db k v d :
  db (Driver_set k v d) = apply_writes [(k, v)] (db d).
Proof. by destruct v. Qed.

Lemma Driver_set_calls k v d :
  db_calls (Driver_set k v d) = db_calls d ++ [write_call (k, v)].
Proof. by destruct v. Qed.

(** The writes of a commit, seen on the stored bytes and on the trace. *)
Lemma commit_fold l d :
  db (foldl (λ d kv, Driver_set kv.1 kv.2 d) d l) = apply_writes l (db d) ∧
  db_calls (foldl (λ d kv, Driver_set kv.1 kv.2 d) d l)
    = db_calls d ++ map write_call l.
Proof.
  revert d. induction l as [|[k v] l IH]; intros d; simpl.
  - by rewrite app_nil_r.
  - destruct (IH (Driver_set k v d)) as [-> ->].
    rewrite Driver_set_db, Driver_set_calls, <-app_assoc. done.
Qed.

Lemma apply_writes_cons k v l m :
  apply_writes ((k, v) :: l) m = apply_writes l (apply_writes [(k, v)] m).
Proof. done. Qed.

Lemma last_write_cons k k' v l acc :
  last_write k ((k', v) :: l) acc =
    last_write k l (if decide (k = k') then Some (encode <$> v) else acc).
Proof. done. Qed.

Lemma last_write_acc k l acc :
  last_write k l acc =
    match last_write k l None with
    | Some w => Some w
    | None => acc
    end.
Proof.
  revert acc. induction l as [|[k' v] l IH]; intros acc; [done|].
  rewrite !last_write_cons.
  destruct (decide (k = k')) as [->|Hne]; [|apply IH].
  rewrite (IH (Some _)). by destruct (last_write k' l None).
Qed.

(** Last write wins: a key reads as its last write left it, and as before
    when no write names it. *)
Lemma lookup_apply_writes k l m :
  apply_writes l m !! k =
    match last_write k l None with
    | Some w => w
    | None => m !! k
    end.
Proof.
  revert m. induction l as [|[k' v] l IH]; intros m; [done|].
  rewrite apply_writes_cons, IH, last_write_cons.
  destruct (decide (k = k')) as [->|Hne].
  - rewrite (last_write_acc _ _ (Some _)).
    destruct (last_write k' l None); [done|].
    destruct v; unfold apply_writes; simpl;
      by rewrite ?lookup_insert_eq, ?lookup_delete_eq.
  - destruct (last_write k l None); [done|].
    destruct v; unfold apply_writes; simpl;
      by rewrite ?lookup_insert_ne, ?lookup_delete_ne.
Qed.

Lemma apply_writes_idemp l m :
  apply_writes l (apply_writes l m) = apply_writes l m.
Proof.
  apply map_eq. intros k. rewrite !lookup_apply_writes.
  by destruct (last_write k l None).
Qed.

(** In a dictionary, a new key goes last and a known key keeps its place. *)
Lemma dict_set_fresh {V} k (v : V) d :
  k ∉ d.*1 → dict_set k v d = d ++ [(k, v)].
Proof.
  induction d as [|[k' v'] d IH]; simpl; [done|].
  rewrite not_elem_of_cons. intros [Hne Hd].
  rewrite decide_False by done. by rewrite IH.
Qed.

Lemma dict_set_keys {V} k (v : V) d :
  k ∈ d.*1 → (dict_set k v d).*1 = d.*1.
Proof.
  induction d as [|[k' v'] d IH]; simpl.
  - by intros ?%elem_of_nil.
  - destruct (decide (k = k')) as [->|Hne]; simpl; [done|].
    rewrite elem_of_cons. intros [?|Hd]; [done|]. f_equal. by apply IH.
Qed.

Lemma dict_get_set {V} k (v : V) d : dict_get k (dict_set k v d) = Some v.
Proof.
  induction d as [|[k' v'] d IH]; simpl.
  - by rewrite decide_True.
  - destruct (decide (k = k')) as [->|Hne]; simpl.
    + by rewrite decide_True.
    + by rewrite decide_False.
Qed.

(** C4. [commit()] hands every pending write to [Driver.set], in the order
    of the pending-write dictionary (a key written for the first time goes
    last, a key written again keeps its place): the client sees one [set],
    or one [delete] for a write of [None], per pending write, in that order.
    The cache, the read set and the pending writes are left as they were,
    and a second [commit()] over the same pending writes leaves the stored
    bytes as the first one left them. *)
Theorem C4_commit (s : State) :
  let s1 := CacheDriver_commit s in
  db_calls (driver s1) = db_calls (driver s) ++ map write_call (pending_writes s) ∧
  db (driver s1) = apply_writes (pending_writes s) (db (driver s)) ∧
  (∀ k v, k ∉ (pending_writes s).*1 →
     pending_writes (CacheDriver_set k v s) = pending_writes s ++ [(k, v)]) ∧
  (∀ k v, k ∈ (pending_writes s).*1 →
     (pending_writes (CacheDriver_set k v s)).*1 = (pending_writes s).*1) ∧
  cache s1 = cache s ∧ reads s1 = reads s ∧
  pending_writes s1 = pending_writes s ∧
  db (driver (CacheDriver_commit s1)) = db (driver s1).
Proof.
  intros s1. unfold s1, CacheDriver_commit. simpl.
  destruct (commit_fold (pending_writes s) (driver s)) as [Hdb Hcalls].
  split_and!; try done.
  - intros k v Hk. by apply dict_set_fresh.
  - intros k v Hk. by apply dict_set_keys.
  - destruct (commit_fold (pending_writes s)
      (foldl (λ d kv, Driver_set kv.1 kv.2 d) (driver s) (pending_writes s)))
      as [-> _].
    rewrite Hdb. apply apply_writes_idemp.
Qed.
End commit_facts.

(** ** Prefix scans *)

Section order_facts.
Lemma Ascii_compare_refl (a : Ascii.ascii) : Ascii.compare a a = Eq.
Proof. unfold Ascii.compare. apply N.compare_refl. Qed.

(** A string is not below its prefixes. *)
Lemma prefix_le (p k : string) : startswith k p → (p ≤ k)%string.
Proof.
  unfold startswith, String.le, String.leb. revert k.
  induction p as [|a p IH]; intros [|b k]; simpl; try done.
  destruct (Ascii.ascii_dec a b) as [->|]; [|done].
  intros Hp. rewrite Ascii_compare_refl.
  by apply IH.
Qed.

(** Between a prefix and a string that starts with it, every string starts
    with it: the keys under a prefix are one unbroken range of the order. *)
Lemma prefix_between (p a b : string) :
  (p ≤ a)%string → (a ≤ b)%string → startswith b p → startswith a p.
Proof.
  unfold startswith, String.le, String.leb. revert a b.
  induction p as [|c p IH]; intros [|d a] [|e b]; simpl; try done.
  destruct (Ascii.ascii_dec c e) as [<-|]; [|done].
  destruct (Ascii.compare c d) eqn:Hcd; [| |done].
  - apply Ascii.compare_eq_iff in Hcd as <-.
    rewrite Ascii_compare_refl.
    destruct (Ascii.ascii_dec c c); [|done]. apply IH.
  - rewrite Ascii.compare_antisym, Hcd. done.
Qed.
End order_facts.

Section iter_facts.
Context `{Codec}.

Lemma iter_loop_db p n cursor l d : db (iter_loop p n cursor l d).2 = db d.
Proof.
  revert l d. induction cursor as [|k cursor IH]; intros l d; simpl; [done|].
  destruct (negb (startswith k p)); [done|].
  destruct (_ && _); [done|]. by rewrite IH.
Qed.

(** Without a limit, over an ascending cursor that starts at the prefix,
    the loop collects the keys under the prefix, all of them. *)
Lemma iter_loop_all p cursor l d :
  StronglySorted (≤)%string cursor →
  Forall (λ k, (p ≤ k)%string) cursor →
  (iter_loop p 0 cursor l d).1 = l ++ filter (λ k, startswith k p) cursor.
Proof.
  intros Hsorted. revert l d.
  induction Hsorted as [|k cursor Hs IH Hk]; intros l d Hp; simpl.
  - by rewrite app_nil_r.
  - apply Forall_cons in Hp as [Hpk Hp].
    destruct (startswith k p) eqn:Hkp; simpl.
    + rewrite IH by done. rewrite filter_cons_True by by apply Is_true_true_2.
      by rewrite <-app_assoc.
    + rewrite filter_cons_False by by apply Is_true_false_2.
      assert (filter (λ k, startswith k p) cursor = []) as ->;
        [|by rewrite app_nil_r].
      apply elem_of_nil_inv. intros b [Hb Hin]%list_elem_of_filter.
      rewrite Forall_forall in Hk.
      pose proof (prefix_between p k b Hpk (Hk _ Hin) Hb) as Hc.
      by rewrite Hkp in Hc.
Qed.

Lemma seek_sorted p d : StronglySorted (≤)%string (seek p d).
Proof.
  unfold seek.
  assert (StronglySorted (≤)%string
            (merge_sort (≤)%string (elements (dom (db d))))) as Hs
    by apply (StronglySorted_merge_sort _).
  induction Hs as [|k l Hs IH Hk]; [constructor|].
  destruct (decide (p ≤ k)%string).
  - rewrite filter_cons_True by done. constructor; [done|].
    apply Forall_forall. intros b [_ Hb]%list_elem_of_filter.
    rewrite Forall_forall in Hk. by apply Hk.
  - by rewrite filter_cons_False.
Qed.

Lemma elem_of_seek p d k :
  k ∈ seek p d ↔ (p ≤ k)%string ∧ k ∈ dom (db d).
Proof.
  unfold seek. rewrite list_elem_of_filter, merge_sort_Permutation.
  by rewrite elem_of_elements.
Qed.

(** [Driver.iter(prefix)] lists the stored keys that start with the prefix,
    and changes nothing in the store. *)
Lemma elem_of_Driver_iter p d k :
  k ∈ (Driver_iter p 0 d).1 ↔ k ∈ dom (db d) ∧ startswith k p.
Proof.
  unfold Driver_iter. rewrite iter_loop_all.
  - simpl. rewrite list_elem_of_filter, elem_of_seek.
    split; [by intros [? [_ ?]]|]. intros [? ?]. auto using prefix_le.
  - apply seek_sorted.
  - apply Forall_forall. by intros b [? _]%elem_of_seek.
Qed.

Lemma Driver_iter_db p n d : db (Driver_iter p n d).2 = db d.
Proof. unfold Driver_iter. by rewrite iter_loop_db. Qed.


End iter_facts.

(** ** Strings *)

Section string_facts.
Lemma string_app_cons a (s t : string) : String a s +:+ t = String a (s +:+ t).
Proof. done. Qed.

Lemma string_app_nil_l (t : string) : "" +:+ t = t.
Proof. done. Qed.

Lemma string_app_nil_r (s : string) : s +:+ "" = s.
Proof. induction s as [|a s IH]; [done|]. by rewrite string_app_cons, IH. Qed.

Lemma string_app_assoc (s t u : string) : (s +:+ t) +:+ u = s +:+ (t +:+ u).
Proof. induction s as [|a s IH]; [done|]. by rewrite !string_app_cons, IH. Qed.

Lemma string_length_app (s t : string) : len (s +:+ t) = len s + len t.
Proof. induction s as [|a s IH]; [done|]. rewrite string_app_cons. simpl. by rewrite IH. Qed.

Lemma substring_app (s t : string) : String.substring 0 (len s) (s +:+ t) = s.
Proof.
  induction s as [|a s IH].
  - by destruct t.
  - rewrite string_app_cons. simpl. by rewrite IH.
Qed.

(** Dropping a delimiter that was just appended gives the string back. *)
Lemma drop_last_app (s d : string) : d ≠ "" → drop_last (len d) (s +:+ d) = s.
Proof.
  intros Hd. unfold drop_last.
  destruct (len d) as [|n] eqn:Hn; [by destruct d|].
  rewrite string_length_app, Hn.
  replace (len s + S n - S n) with (len s) by lia.
  apply substring_app.
Qed.
Lemma prefix_nil (s : string) : String.prefix "" s = true.
Proof. by destruct s. Qed.

Lemma prefix_cons (a b : Ascii.ascii) (s t : string) :
  String.prefix (String a s) (String b t)
  = bool_decide (a = b) && String.prefix s t.
Proof.
  cbn [String.prefix]. destruct (Ascii.ascii_dec a b).
  - by rewrite bool_decide_eq_true_2.
  - by rewrite bool_decide_eq_false_2.
Qed.

Lemma prefix_app_same (p x y : string) :
  String.prefix (p +:+ x) (p +:+ y) = String.prefix x y.
Proof.
  induction p as [|a p IH]; [done|].
  rewrite !string_app_cons, prefix_cons, IH.
  by rewrite bool_decide_eq_true_2.
Qed.

Lemma prefix_app_r (x y : string) : String.prefix x (x +:+ y) = true.
Proof.
  rewrite <-(string_app_nil_r x) at 1. rewrite prefix_app_same. apply prefix_nil.
Qed.
End string_facts.

(** ** Coordinate validation *)

Section validation_facts.
Context `{Codec, Bridge, Constants}.

(** The loop over the dimensions stops at the first slice or illegal
    dimension, and otherwise appends every dimension and a delimiter. *)
Lemma validate_dims_spec d l acc :
  match validate_dims d l acc with
  | Ok r =>
      existsb (λ k, is_slice k || illegal k) l = false ∧
      r = foldl (λ acc k, acc +:+ str k +:+ d) acc l
  | Error e =>
      existsb (λ k, is_slice k || illegal k) l = true ∧
      ∃ msg, e = AssertionError msg
  end.
Proof.
  revert acc. induction l as [|k l IH]; intros acc; simpl; [done|].
  unfold illegal at 1 3.
  destruct (is_slice k); simpl; [eauto|].
  destruct (contains DELIMITER (str k)); simpl; [eauto|].
  destruct (contains INDEX_SEPARATOR (str k)); simpl; [eauto|].
  apply IH.
Qed.

Lemma existsb_orb {A} (f g : A → bool) l :
  existsb (λ x, f x || g x) l = existsb f l || existsb g l.
Proof.
  induction l as [|x l IH]; simpl; [done|]. rewrite IH.
  destruct (f x), (g x), (existsb f l), (existsb g l); done.
Qed.

(** What the loop has built, once the last delimiter is set apart. *)
Lemma fold_join d k l acc :
  foldl (λ acc k, acc +:+ str k +:+ d) acc (k :: l)
  = (acc +:+ String.concat d (map str (k :: l))) +:+ d.
Proof.
  revert k acc. induction l as [|k' l IH]; intros k acc.
  - simpl. by rewrite string_app_assoc.
  - change (foldl (λ acc k, acc +:+ str k +:+ d) (acc +:+ str k +:+ d) (k' :: l)
            = (acc +:+ String.concat d (map str (k :: k' :: l))) +:+ d).
    rewrite IH.
    change (String.concat d (map str (k :: k' :: l)))
      with (str k +:+ d +:+ String.concat d (map str (k' :: l))).
    by rewrite !string_app_assoc.
Qed.

Lemma dims_string d l :
  d ≠ "" →
  drop_last (len d) (foldl (λ acc k, acc +:+ str k +:+ d) "" l)
  = String.concat d (map str l).
Proof.
  intros Hd. destruct l as [|k l].
  - simpl. unfold drop_last. by destruct (len d).
  - rewrite fold_join, string_app_nil_l. by apply drop_last_app.
Qed.

Lemma check_key_size_spec key :
  check_key_size key =
    if MAX_KEY_SIZE <? len key
    then Error (AssertionError
           ("Key is too long (" +:+ pretty (len key) +:+ "). Max is "
              +:+ pretty MAX_KEY_SIZE +:+ "."))
    else Ok key.
Proof.
  unfold check_key_size.
  destruct (Nat.leb_spec (len key) MAX_KEY_SIZE),
           (Nat.ltb_spec MAX_KEY_SIZE (len key)); done || lia.
Qed.

(** [_validate_key] turns down exactly the invalid coordinates, with an
    assertion error, and hands back the composed string of the others. *)
Lemma validate_key_spec h key :
  hash_delimiter h ≠ "" →
  if invalid_key h key
  then ∃ msg, Hash__validate_key h key = Error (AssertionError msg)
  else Hash__validate_key h key = Ok (coord_string (hash_delimiter h) key).
Proof.
  intros Hd. unfold invalid_key, too_long, coord_string.
  destruct key as [k|l]; simpl.
  - rewrite orb_false_r. unfold illegal.
    destruct (contains DELIMITER (str k)); simpl; [eauto|].
    destruct (contains INDEX_SEPARATOR (str k)); simpl; [eauto|].
    rewrite check_key_size_spec. destruct (_ <? _); eauto.
  - destruct (Nat.leb_spec (length l) MAX_HASH_DIMENSIONS) as [Hle|Hgt],
             (Nat.ltb_spec MAX_HASH_DIMENSIONS (length l)) as [Hlt|Hge];
      try lia; simpl; [|eauto].
    pose proof (validate_dims_spec (hash_delimiter h) l "") as Hv.
    rewrite existsb_orb in Hv.
    destruct (validate_dims (hash_delimiter h) l "") as [r|e].
    + destruct Hv as [Hex ->]. apply orb_false_iff in Hex as [-> ->]. simpl.
      rewrite dims_string by done.
      rewrite check_key_size_spec. destruct (_ <? _); eauto.
    + destruct Hv as [Hex [msg ->]]. rewrite Hex. simpl. eauto.
Qed.

(** A failed validation stops the operation before the driver is
    reached. *)
Lemma validation_stops h key e :
  Hash__validate_key h key = Error e →
  ∀ s value,
    fails_clean (Hash_getitem h key) s e ∧
    fails_clean (Hash_setitem h key value) s e.
Proof.
  intros He s value.
  unfold fails_clean, Hash_getitem, Hash_setitem, mbind, M_bind.
  by rewrite He.
Qed.

Lemma validation_stops_args h args e :
  Hash__validate_key h (KeyTuple args) = Error e →
  ∀ s,
    fails_clean (Hash_all h args) s e ∧
    fails_clean (Hash__items h args) s e ∧
    fails_clean (Hash_clear h args) s e.
Proof.
  intros He s.
  unfold fails_clean, Hash_clear, Hash_all, Hash__items, mbind, M_bind,
    Hash__prefix_for_args.
  by rewrite He.
Qed.

Lemma for_each_call_returns {A} (l : list A) (f : A → State → State) s :
  returns (for_each l (λ x, call_ (f x))) s.
Proof.
  revert s. induction l as [|x l IH]; intros s.
  - by eexists _, _.
  - apply (IH (f x s)).
Qed.

(** A passed validation lets the operation run to its end. *)
Lemma validation_passes h key k :
  Hash__validate_key h key = Ok k →
  ∀ s value,
    returns (Hash_getitem h key) s ∧ returns (Hash_setitem h key value) s.
Proof.
  intros Hk s value.
  unfold returns, Hash_getitem, Hash_setitem, mbind, M_bind.
  rewrite Hk. simpl. unfold Hash__get, Hash__set, mbind, M_bind, call, call_.
  destruct (CacheDriver_get _ s). split; by eexists _, _.
Qed.

Lemma validation_passes_args h args k :
  Hash__validate_key h (KeyTuple args) = Ok k →
  ∀ s,
    returns (Hash_all h args) s ∧ returns (Hash__items h args) s ∧
    returns (Hash_clear h args) s.
Proof.
  intros Hk s.
  unfold returns, Hash_clear, Hash_all, Hash__items, mbind, M_bind,
    Hash__prefix_for_args.
  rewrite Hk. simpl. unfold call.
  destruct (ContractDriver_values _ s), (ContractDriver_items _ s) as [m s'].
  split_and!; [by eexists _, _..|].
  apply for_each_call_returns.
Qed.
End validation_facts.

Section validation_properties.
Context `{Codec, Bridge, Constants}.

(** C5, as amended. On a hash whose delimiter is not empty, item lookup,
    item assignment, [all] and [clear] fail with an assertion error exactly
    when the coordinate is a tuple of more than [MAX_HASH_DIMENSIONS]
    dimensions, or a tuple with a slice among its dimensions, or has a
    dimension whose string form holds the delimiter or the index separator,
    or has a composed coordinate string longer than [MAX_KEY_SIZE] (the
    bound prefix is not counted and nothing is set aside for it); a failing
    operation leaves the whole state as it was, and on every other
    coordinate the operation returns.  [all] and [clear] read their
    arguments as a tuple. *)
Theorem C5_coordinate_validation (h : Hash) (key : hash_key)
    (args : list scalar) (value : pyobj) (s : State) :
  hash_delimiter h ≠ "" →
  (if invalid_key h key
   then ∃ msg,
     fails_clean (Hash_getitem h key) s (AssertionError msg) ∧
     fails_clean (Hash_setitem h key value) s (AssertionError msg)
   else returns (Hash_getitem h key) s ∧
        returns (Hash_setitem h key value) s) ∧
  (if invalid_key h (KeyTuple args)
   then ∃ msg,
     fails_clean (Hash_all h args) s (AssertionError msg) ∧
     fails_clean (Hash_clear h args) s (AssertionError msg)
   else returns (Hash_all h args) s ∧ returns (Hash_clear h args) s).
Proof.
  intros Hd. split.
  - pose proof (validate_key_spec h key Hd) as Hv.
    destruct (invalid_key h key).
    + destruct Hv as [msg Hv]. exists msg.
      by apply validation_stops.
    + by eapply validation_passes.
  - pose proof (validate_key_spec h (KeyTuple args) Hd) as Hv.
    destruct (invalid_key h (KeyTuple args)).
    + destruct Hv as [msg Hv]. exists msg.
      destruct (validation_stops_args h args _ Hv s) as (? & ? & ?). done.
    + destruct (validation_passes_args h args _ Hv s) as (? & ? & ?). done.
Qed.

(** With a slice among the dimensions and no illegal dimension before it,
    the loop stops on the slice. *)
Lemma validate_dims_slice d l acc :
  Exists (λ k, is_slice k) l →
  Forall (λ k, is_slice k = false → illegal k = false) l →
  validate_dims d l acc = Error (AssertionError "Slices prohibited in hashes.").
Proof.
  intros Hex. revert acc.
  induction l as [|k l IH]; intros acc Hall; [by apply Exists_nil in Hex|].
  apply Forall_cons in Hall as [Hk Hall]. simpl.
  destruct (is_slice k) eqn:Hs; [done|].
  specialize (Hk eq_refl). unfold illegal in Hk.
  apply orb_false_iff in Hk as [-> ->].
  apply IH; [|done].
  apply Exists_cons in Hex as [Hex|Hex]; [|done]. by rewrite Hs in Hex.
Qed.

(** C10. A tuple coordinate with a slice among its elements is turned down
    with an assertion error by [_validate_key], and item lookup, item
    assignment, [all], [_items] and [clear] on it raise that error with the
    state left as it was: no key is built and the driver is not reached.
    When the tuple is within the dimension bound and its other elements are
    legal, the error is the slice one.  The rejection is for tuple elements:
    a slice that is the whole coordinate never meets the slice error. *)
Theorem C10_slices_in_tuples (h : Hash) (l : list scalar) :
  Exists (λ k, is_slice k) l →
  (∃ msg,
     Hash__validate_key h (KeyTuple l) = Error (AssertionError msg) ∧
     (length l ≤ MAX_HASH_DIMENSIONS →
      Forall (λ k, is_slice k = false → illegal k = false) l →
      msg = "Slices prohibited in hashes.") ∧
     ∀ s value,
       fails_clean (Hash_getitem h (KeyTuple l)) s (AssertionError msg) ∧
       fails_clean (Hash_setitem h (KeyTuple l) value) s (AssertionError msg) ∧
       fails_clean (Hash_all h l) s (AssertionError msg) ∧
       fails_clean (Hash__items h l) s (AssertionError msg) ∧
       fails_clean (Hash_clear h l) s (AssertionError msg)) ∧
  ∀ a b c,
    Hash__validate_key h (KeyScalar (SSlice a b c))
    ≠ Error (AssertionError "Slices prohibited in hashes.").
Proof.
  intros Hex. split.
  - assert (∃ msg, Hash__validate_key h (KeyTuple l) = Error (AssertionError msg)
              ∧ (length l ≤ MAX_HASH_DIMENSIONS →
                 Forall (λ k, is_slice k = false → illegal k = false) l →
                 msg = "Slices prohibited in hashes.")) as (msg & Hv & Hmsg).
    { simpl.
      destruct (Nat.leb_spec (length l) MAX_HASH_DIMENSIONS) as [Hle|Hgt].
      - pose proof (validate_dims_spec (hash_delimiter h) l "") as Hv.
        destruct (validate_dims (hash_delimiter h) l "") as [r|e] eqn:Hr.
        + destruct Hv as [Hno _]. rewrite existsb_orb in Hno.
          apply orb_false_iff in Hno as [Hno _].
          apply Exists_exists in Hex as (k & Hk & Hs).
          assert (existsb is_slice l = true) as Hyes.
          { apply existsb_exists. exists k. split; [by apply list_elem_of_In|].
            by apply Is_true_true. }
          congruence.
        + destruct Hv as [_ [msg ->]]. exists msg. split; [done|].
          intros _ Hall. rewrite validate_dims_slice in Hr by done. congruence.
      - eexists. split; [done|]. lia. }
    exists msg. split_and!; [done..|]. intros s value.
    destruct (validation_stops h _ _ Hv s value) as [? ?].
    destruct (validation_stops_args h _ _ Hv s) as (? & ? & ?). done.
  - intros a b c. unfold Hash__validate_key. cbv zeta.
    destruct (contains DELIMITER _); [by intros [=]|].
    destruct (contains INDEX_SEPARATOR _); [by intros [=]|].
    rewrite check_key_size_spec. destruct (_ <? _); [|by intros [=]].
    rewrite string_app_cons. by intros [=].
Qed.
End validation_properties.

(** ** Key composition *)

Section key_facts.
Context `{Codec, Bridge, Constants}.

Lemma make_key_fold (k : string) (l : list scalar) :
  foldl (λ k a, k +:+ (":" +:+ str a)) k l
  = k +:+ foldr (λ c rest, ":" +:+ str c +:+ rest) "" l.
Proof.
  revert k. induction l as [|a l IH]; intros k; simpl.
  - by rewrite string_app_nil_r.
  - by rewrite IH, !string_app_assoc.
Qed.

(** With [":"] between the dimensions, joining and prefixing agree. *)
Lemma concat_colon (k : scalar) (l : list scalar) :
  ":" +:+ String.concat ":" (map str (k :: l))
  = foldr (λ c rest, ":" +:+ str c +:+ rest) "" (k :: l).
Proof.
  revert k. induction l as [|k' l IH]; intros k.
  - simpl. by rewrite string_app_nil_r.
  - change (String.concat ":" (map str (k :: k' :: l)))
      with (str k +:+ ":" +:+ String.concat ":" (map str (k' :: l))).
    rewrite IH. done.
Qed.

(** What [make_key] computes on a driver that has a [delimiter] attribute
    (the parameter [driver_delimiter]: no class of the sources assigns it):
    the contract, that delimiter, the field and then, for each element of a
    coordinate list in order, [":"] followed by the string form of the
    element; without a coordinate, or with one that is not a list, it stops
    after the field.  A hash built by [Hash.__init__] with [":"] as
    [DELIMITER] reads and writes a valid, non-empty tuple coordinate at
    exactly that key. *)
Lemma make_key_shape (contract field : string) (coordinate : list scalar) :
  ContractDriver_make_key contract field ArgsNone
    = contract +:+ driver_delimiter +:+ field ∧
  ContractDriver_make_key contract field (ArgsList coordinate)
    = (contract +:+ driver_delimiter +:+ field)
      +:+ foldr (λ c rest, ":" +:+ str c +:+ rest) "" coordinate ∧
  ContractDriver_make_key contract field (ArgsTuple coordinate)
    = contract +:+ driver_delimiter +:+ field ∧
  (DELIMITER = ":" → coordinate ≠ [] →
   ∀ default_value k,
     let h := Hash_init contract field default_value in
     Hash__validate_key h (KeyTuple coordinate) = Ok k →
     hash_key_ h +:+ hash_delimiter h +:+ k
     = ContractDriver_make_key contract field (ArgsList coordinate)).
Proof.
  split_and!; [done| |done|].
  - unfold ContractDriver_make_key. apply make_key_fold.
  - intros HD Hne default_value k h Hk.
    assert (hash_delimiter h ≠ "") as Hd by (simpl; by rewrite HD).
    pose proof (validate_key_spec h (KeyTuple coordinate) Hd) as Hv.
    destruct (invalid_key h (KeyTuple coordinate)).
    { destruct Hv as [msg Hv]. congruence. }
    rewrite Hk in Hv. injection Hv as ->.
    unfold ContractDriver_make_key. rewrite make_key_fold.
    unfold coord_string, h, Hash_init, Datum_key, ContractDriver_make_key.
    simpl. rewrite HD. destruct coordinate as [|c l]; [done|].
    rewrite <-concat_colon. by rewrite !string_app_assoc.
Qed.
End key_facts.

(** ** Defaults and decimals *)

Section hash_get_facts.
Context `{Codec, Bridge, Constants}.

Lemma normalize_not_float (value : pyobj) (f : spec_float) :
  normalize value ≠ Some (VFloat f).
Proof. by destruct value as [[]|]. Qed.

Lemma normalize_is_Some (x : val) : is_Some (normalize (Some x)).
Proof. destruct x; by eexists. Qed.

(** C9. [Hash._get], and item lookup on a valid coordinate through it,
    return the value the driver has under the key, and the default value of
    the hash when the driver has [None] there; so with a default configured
    an unset coordinate never reads as [None].  Whatever is returned has
    gone through the decimal conversion: a float or a decimal, stored or
    default, leaves as the [ContractingDecimal] built from its string form,
    any other value leaves as it is, and no float is ever returned. *)
Theorem C9_default_and_decimal (h : Hash) (item : string) (s : State) :
  let stored := (CacheDriver_get (hash_key_ h +:+ hash_delimiter h +:+ item) s).1 in
  let s' := (CacheDriver_get (hash_key_ h +:+ hash_delimiter h +:+ item) s).2 in
  let value := if stored is Some _ then stored else hash_default_value h in
  Hash__get h item s = Return (normalize value) s' ∧
  (stored = None → is_Some (hash_default_value h) →
     is_Some (normalize value)) ∧
  (∀ f, normalize value ≠ Some (VFloat f)) ∧
  (∀ f, value = Some (VFloat f) →
     normalize value = Some (VDecimal (decimal_of_str (str_float f)))) ∧
  (∀ d, value = Some (VDecimal d) →
     normalize value = Some (VDecimal (decimal_of_str (str_decimal d)))) ∧
  (type_of value ≠ t_float → type_of value ≠ t_ContractingDecimal →
     normalize value = value) ∧
  (∀ key, Hash__validate_key h key = Ok item →
     Hash_getitem h key s = Hash__get h item s).
Proof.
  intros stored s' value. split_and!.
  - unfold Hash__get, mbind, M_bind, call, value, stored, s'.
    by destruct (CacheDriver_get _ s) as [[x|] s1].
  - intros Hs [d Hd]. unfold value. rewrite Hs, Hd. apply normalize_is_Some.
  - intros f. apply normalize_not_float.
  - by intros f ->.
  - by intros d ->.
  - by destruct value as [[]|].
  - intros key Hk. unfold Hash_getitem, mbind, M_bind at 1. by rewrite Hk.
Qed.
End hash_get_facts.

(** ** Foreign bindings *)

Section foreign_facts.
Context `{Codec, Bridge, Constants}.


Lemma Hash_setitem_inv (h : Hash) (key : hash_key) (value : pyobj) (s s' : State) :
  Hash_setitem h key value s = Return () s' →
  ∃ k, Hash__validate_key h key = Ok k ∧
       s' = CacheDriver_set (hash_key_ h +:+ hash_delimiter h +:+ k) value s.
Proof.
  unfold Hash_setitem, mbind, M_bind.
  destruct (Hash__validate_key h key) as [k|e]; [|done].
  intros [= <-]. by exists k.
Qed.

Lemma get_after_set (k : string) (v : val) (s : State) :
  CacheDriver_get k (CacheDriver_set k (Some v) s)
  = (Some v, rt_log (deduct_read k (Some v)) (CacheDriver_set k (Some v) s)).
Proof. apply CacheDriver_get_hit. simpl. by rewrite lookup_insert_eq. Qed.



End foreign_facts.

(** ** Log events *)

Section log_event_facts.
Context `{Codec, Bridge, Constants}.

Lemma issubclass_allowed (t : pytype) :
  issubclass t allowed_types = bool_decide (t ∈ allowed_types).
Proof. by destruct t. Qed.

Lemma forallb_allowed (ts : list pytype) :
  forallb (λ t, issubclass t allowed_types) ts
  = negb (existsb (λ t, negb (bool_decide (t ∈ allowed_types))) ts).
Proof.
  induction ts as [|t ts IH]; [done|].
  cbn [forallb existsb]. rewrite IH, issubclass_allowed.
  by destruct (bool_decide (t ∈ allowed_types)).
Qed.

(** The loop over the schema stops at the first argument with a class that
    is not allowed, and otherwise keeps every argument, its type a tuple. *)
Lemma check_types_spec (args : list (string * arg_spec)) :
  check_types args =
    if existsb (λ a : string * arg_spec,
         existsb (λ t, negb (bool_decide (t ∈ allowed_types)))
                 (as_tuple (arg_type a.2))) args
    then Error (AssertionError
      "Each type in args must be str, int, float, ContractingDecimal, or bool.")
    else Ok (normalized args).
Proof.
  induction args as [|[name arg] args IH]; [done|].
  cbn [check_types existsb]. rewrite forallb_allowed, IH. cbn [snd].
  destruct (existsb _ (as_tuple (arg_type arg))); [done|].
  cbn [negb orb]. by destruct (existsb _ args).
Qed.

Lemma LogEvent_init_spec (contract name : string)
    (args : list (string * arg_spec)) :
  if schema_rejected args
  then ∃ msg, LogEvent_init contract name args = Error (AssertionError msg)
  else LogEvent_init contract name args
       = Ok (mkLogEvent (Datum_key contract name) (normalized args) contract name).
Proof.
  unfold schema_rejected, LogEvent_init, indexed_args_count.
  rewrite check_types_spec.
  destruct args as [|a args]; [by eexists|].
  change (length (a :: args) =? 0) with false.
  change (0 <? length (a :: args)) with true. cbn [orb].
  set (n := length (filter _ (a :: args))).
  destruct (Nat.leb_spec n 3), (Nat.ltb_spec 3 n); try lia; cbn [orb].
  - destruct (existsb _ (a :: args)); [by eexists|done].
  - by eexists.
Qed.
Lemma bind_unfold {A B} (m : M A) (k : A → M B) (s : State) :
  (m ≫= k) s = match m s with
               | Return a s' => k a s'
               | Raise e s' => Raise e s'
               end.
Proof. done. Qed.

Lemma assert_true (msg : string) (s : State) : assert true msg s = Return () s.
Proof. done. Qed.

Lemma assert_true_bind {A} (msg : string) (k : M A) (s : State) :
  (assert true msg ;; k) s = k s.
Proof. done. Qed.

Lemma assert_false_bind {A} (msg : string) (k : M A) (s : State) :
  (assert false msg ;; k) s = Raise (AssertionError msg) s.
Proof. done. Qed.

(** The checking loop of [write_event] stops on the first schema argument
    that the data does not serve, and touches nothing. *)
Lemma check_loop_spec (args : list (string * arg_spec))
    (event_data : gmap string pyobj) (names : list string) (s : State) :
  for_each names (λ arg,
    assert (bool_decide (is_Some (event_data !! arg)))
      ("Argument " +:+ arg +:+ " is missing from the data dictionary.") ;;
    assert (isinstance (getitem event_data arg) (types_for args arg))
      (wrong_type "Argument " arg (types_for args arg)
                  (getitem event_data arg))) s
  = match find (offending args event_data) names with
    | Some arg => Raise (AssertionError (offence args event_data arg)) s
    | None => Return () s
    end.
Proof.
  induction names as [|arg names IH]; [done|].
  cbn [for_each find]. unfold offending at 1.
  unfold mbind at 1, M_bind at 1.
  destruct (bool_decide (is_Some (event_data !! arg))) eqn:Hin.
  - rewrite assert_true_bind. unfold assert at 1.
    destruct (isinstance (getitem event_data arg) (types_for args arg)).
    + cbn [negb orb]. apply IH.
    + cbn [negb orb]. unfold offence. by rewrite Hin.
  - rewrite assert_false_bind. cbn [negb orb]. unfold offence. by rewrite Hin.
Qed.

(** The closing loops meter every argument of their group: the check they
    repeat has been passed before. *)
Lemma emit_args_spec (le : LogEvent) (label : string)
    (g : list (string * pyobj)) (s : State) :
  forallb (λ kv, isinstance kv.2 (types_for (le_args le) kv.1)) g = true →
  emit_args le label g s = Return () (foldl (λ s kv, rt_log (meter_kv kv) s) s g).
Proof.
  revert s. induction g as [|[arg value] g IH]; intros s Hg; [done|].
  cbn [forallb fst snd] in Hg. apply andb_true_iff in Hg as [Hv Hg].
  unfold emit_args in *. cbn [for_each foldl].
  unfold mbind at 1, M_bind at 1. rewrite Hv, assert_true_bind.
  unfold call_ at 1. by apply IH.
Qed.

Lemma meter_fold (g : list (string * pyobj)) (s : State) :
  let s' := foldl (λ s kv, rt_log (meter_kv kv) s) s g in
  rt_calls s' = rt_calls s ++ map meter_kv g ∧
  driver s' = driver s ∧ cache s' = cache s ∧ reads s' = reads s ∧
  pending_writes s' = pending_writes s ∧ events s' = events s ∧
  rt_signer s' = rt_signer s ∧ rt_caller s' = rt_caller s.
Proof.
  revert s. induction g as [|kv g IH]; intros s; simpl.
  - by rewrite app_nil_r.
  - destruct (IH (rt_log (meter_kv kv) s)) as (-> & -> & -> & -> & -> & -> & -> & ->).
    simpl. by rewrite <-app_assoc.
Qed.

Lemma find_existsb {A} (f : A → bool) (l : list A) :
  match find f l with
  | Some x => x ∈ l ∧ f x = true ∧ existsb f l = true
  | None => existsb f l = false
  end.
Proof.
  induction l as [|x l IH]; [done|]. cbn [find existsb].
  destruct (f x) eqn:Hx.
  - split_and!; [by left|done|done].
  - destruct (find f l); [|done].
    destruct IH as (? & ? & ?). split_and!; [by right|done|done].
Qed.

Lemma group_passes (le : LogEvent) (event_data : gmap string pyobj) (idx : bool) :
  existsb (offending (le_args le) event_data) (le_args le).*1 = false →
  forallb (λ kv, isinstance kv.2 (types_for (le_args le) kv.1))
          (group le event_data idx) = true.
Proof.
  intros Hno. apply forallb_forall. intros [arg v] Hin.
  apply list_elem_of_In, list_elem_of_fmap in Hin as (a & [= -> ->] & Ha).
  apply list_elem_of_filter in Ha as [_ Ha]. cbn [fst snd].
  destruct (isinstance _ _) eqn:Hi; [done|].
  assert (existsb (offending (le_args le) event_data) (le_args le).*1 = true)
    as Hyes; [|congruence].
  apply existsb_exists. exists a. split; [by apply list_elem_of_In|].
  unfold offending. rewrite Hi. apply orb_true_r.
Qed.

(** What [write_event] does, by cases on the data. *)
Lemma write_event_spec (le : LogEvent) (event_data : gmap string pyobj)
    (s : State) :
  LogEvent_write_event le event_data s =
    if negb (bool_decide (size event_data = length (le_args le)))
    then Raise (AssertionError
      "Data must have the same number of arguments as specified in the event.") s
    else
      match find (offending (le_args le) event_data) (le_args le).*1 with
      | Some arg => Raise (AssertionError (offence (le_args le) event_data arg)) s
      | None =>
          Return ()
            (add_event
               (mkEvent (le_contract le) (le_name le) (rt_signer s) (rt_caller s)
                        (group le event_data true) (group le event_data false))
               (foldl (λ s kv, rt_log (meter_kv kv) s)
                  (foldl (λ s kv, rt_log (meter_kv kv) s) s
                     (group le event_data true))
                  (group le event_data false)))
      end.
Proof.
  unfold LogEvent_write_event. rewrite bind_unfold.
  destruct (bool_decide (size event_data = length (le_args le))); [|done].
  rewrite assert_true. cbv beta iota. cbn [negb].
  rewrite bind_unfold, check_loop_spec.
  pose proof (find_existsb (offending (le_args le) event_data) (le_args le).*1)
    as Hf.
  destruct (find _ _) as [arg|]; [done|]. cbv beta iota.
  rewrite bind_unfold. unfold gets at 1. cbv beta iota.
  rewrite bind_unfold. unfold gets at 1. cbv beta iota.
  cbn [ev_indexed_args ev_non_indexed_args].
  change (map _ (filter (λ arg, indexed_for (le_args le) arg) _))
    with (group le event_data true).
  change (map _ (filter (λ arg, negb (indexed_for (le_args le) arg)) _))
    with (group le event_data false).
  rewrite bind_unfold, emit_args_spec by by apply group_passes.
  cbv beta iota.
  rewrite bind_unfold, emit_args_spec by by apply group_passes.
  done.
Qed.
End log_event_facts.

Section log_event_properties.
Context `{Codec, Bridge, Constants}.

(** What the constructor and [write_event] enforce, as they are written.
    The constructor fails, with an assertion error, exactly
    when the schema is empty, or flags more than three arguments as indexed,
    or declares a class outside [str], [int], [float], [ContractingDecimal]
    and [bool]; otherwise it keeps the contract, the event name and the schema
    with every type as a tuple.  [write_event] fails, with an assertion error
    and the state left as it was, exactly when the data do not have as many
    arguments as the schema, or a schema argument is missing from them, or
    the value of one is not an instance of the classes declared for it (a
    boolean is an instance of [int] as well as of [bool]); when the numbers
    agree, the error is the one of the first such schema argument and names
    it.  Otherwise [write_event] returns: it has appended one record with the
    contract, the event name, the signer and the caller of the ambient
    context and the indexed and the other arguments in schema order, has
    metered every argument, and has touched nothing else. *)
Lemma event_schema_enforcement (contract name : string)
    (args : list (string * arg_spec)) (le : LogEvent)
    (event_data : gmap string pyobj) (s : State) :
  (if schema_rejected args
   then ∃ msg, LogEvent_init contract name args = Error (AssertionError msg)
   else ∃ le0, LogEvent_init contract name args = Ok le0 ∧
               le_contract le0 = contract ∧ le_name le0 = name ∧
               le_args le0 = normalized args) ∧
  (if data_rejected le event_data
   then ∃ msg,
     fails_clean (LogEvent_write_event le event_data) s (AssertionError msg) ∧
     (size event_data = length (le_args le) →
      ∃ arg, arg ∈ (le_args le).*1 ∧
             offending (le_args le) event_data arg ∧
             msg = offence (le_args le) event_data arg)
   else ∃ s',
     LogEvent_write_event le event_data s = Return () s' ∧
     events s' = events s ++
       [mkEvent (le_contract le) (le_name le) (rt_signer s) (rt_caller s)
                (group le event_data true) (group le event_data false)] ∧
     rt_calls s' = rt_calls s ++
       map meter_kv (group le event_data true ++ group le event_data false) ∧
     driver s' = driver s ∧ cache s' = cache s ∧ reads s' = reads s ∧
     pending_writes s' = pending_writes s).
Proof.
  split.
  - pose proof (LogEvent_init_spec contract name args) as Hi.
    destruct (schema_rejected args); [done|]. by eexists.
  - unfold data_rejected, fails_clean. rewrite write_event_spec.
    destruct (bool_decide_reflect (size event_data = length (le_args le)))
      as [Hn|Hn]; cbn [negb orb].
    + pose proof (find_existsb (offending (le_args le) event_data)
                    (le_args le).*1) as Hf.
      destruct (find _ _) as [arg|].
      * destruct Hf as (Hin & Hoff & ->). eexists. split; [done|].
        intros _. exists arg. split_and!; [done| |done]. by rewrite Hoff.
      * rewrite Hf. eexists. split; [done|].
        destruct (meter_fold (group le event_data true) s)
          as (Hr1 & Hd1 & Hc1 & Hrd1 & Hp1 & He1 & _).
        destruct (meter_fold (group le event_data false)
                    (foldl (λ s kv, rt_log (meter_kv kv) s) s
                       (group le event_data true)))
          as (Hr2 & Hd2 & Hc2 & Hrd2 & Hp2 & He2 & _).
        cbn [add_event events rt_calls driver cache reads pending_writes].
        rewrite He2, He1, Hr2, Hr1, Hd2, Hd1, Hc2, Hc1, Hrd2, Hrd1, Hp2, Hp1.
        by rewrite map_app, app_assoc.
    + eexists. split; [done|]. done.
Qed.
End log_event_properties.

(** * Further properties of the drivers *)

Section driver_properties.
Context `{Codec}.

Lemma StronglySorted_filter {A} (R : relation A) (P : A → Prop)
    `{∀ x, Decision (P x)} (l : list A) :
  StronglySorted R l → StronglySorted R (filter P l).
Proof.
  induction 1 as [|x l Hs IH Hx]; [constructor|].
  destruct (decide (P x)).
  - rewrite filter_cons_True by done. constructor; [done|].
    apply Forall_forall. intros y [_ Hy]%list_elem_of_filter.
    rewrite Forall_forall in Hx. by apply Hx.
  - by rewrite filter_cons_False.
Qed.

(** Past the first key that leaves the prefix, an ascending cursor holds no
    key of the prefix. *)
Lemma filter_after_break (p k : string) (cursor : list string) :
  (p ≤ k)%string → startswith k p = false →
  Forall (λ b, (k ≤ b)%string) cursor →
  filter (λ k, startswith k p) cursor = [].
Proof.
  intros Hpk Hkp Hk. apply elem_of_nil_inv.
  intros b [Hb Hin]%list_elem_of_filter.
  rewrite Forall_forall in Hk.
  pose proof (prefix_between p k b Hpk (Hk _ Hin) Hb) as Hc.
  by rewrite Hkp in Hc.
Qed.

Lemma seek_nodup (p : string) (d : Driver) : NoDup (seek p d).
Proof.
  unfold seek. apply NoDup_filter.
  rewrite merge_sort_Permutation. apply NoDup_elements.
Qed.

(** X1. Without a limit, [Driver.iter(prefix)] returns the stored keys that
    start with the prefix and no other key, each once and in ascending
    order, and leaves the stored bytes as they were. *)
Theorem X1_iter_lists_the_prefix (prefix : string) (d : Driver) :
  let r := Driver_iter prefix 0 d in
  (∀ k, k ∈ r.1 ↔ k ∈ dom (db d) ∧ startswith k prefix) ∧
  StronglySorted (≤)%string r.1 ∧ NoDup r.1 ∧ db r.2 = db d.
Proof.
  intros r. split_and!.
  - apply elem_of_Driver_iter.
  - unfold r, Driver_iter. rewrite iter_loop_all.
    + apply StronglySorted_filter, seek_sorted.
    + apply seek_sorted.
    + apply Forall_forall. by intros b [? _]%elem_of_seek.
  - unfold r, Driver_iter. rewrite iter_loop_all.
    + apply NoDup_filter, seek_nodup.
    + apply seek_sorted.
    + apply Forall_forall. by intros b [? _]%elem_of_seek.
  - apply Driver_iter_db.
Qed.

(** With a limit, the loop stops as soon as it holds that many keys. *)
Lemma iter_loop_limit (p : string) (n : nat) (cursor l : list string)
    (d : Driver) :
  length l < n →
  StronglySorted (≤)%string cursor →
  Forall (λ k, (p ≤ k)%string) cursor →
  (iter_loop p n cursor l d).1
  = l ++ take (n - length l) (filter (λ k, startswith k p) cursor).
Proof.
  intros Hn Hsorted. revert l d Hn.
  induction Hsorted as [|k cursor Hs IH Hk]; intros l d Hn Hp; simpl.
  - by rewrite filter_nil, take_nil, app_nil_r.
  - apply Forall_cons in Hp as [Hpk Hp].
    destruct (startswith k p) eqn:Hkp; simpl.
    + rewrite filter_cons_True by by apply Is_true_true_2.
      replace (n - length l) with (S (n - S (length l))) by lia.
      rewrite firstn_cons.
      destruct (Nat.ltb_spec 0 n); [|lia]. simpl.
      rewrite length_app. simpl.
      destruct (Nat.leb_spec n (length l + 1)).
      * replace (n - S (length l)) with 0 by lia. by rewrite take_0.
      * rewrite IH; [|rewrite length_app; simpl; lia|done].
        rewrite length_app, <-app_assoc. simpl.
        by replace (length l + 1) with (S (length l)) by lia.
    + rewrite filter_cons_False by by apply Is_true_false_2.
      rewrite (filter_after_break p k) by done.
      by rewrite take_nil, app_nil_r.
Qed.

(** X2. With a limit [n > 0], [Driver.iter(prefix, n)] returns the first [n]
    keys of what it returns without a limit: the [n] smallest stored keys
    under the prefix, or all of them when there are fewer. *)
Theorem X2_iter_limit (prefix : string) (n : nat) (d : Driver) :
  0 < n →
  (Driver_iter prefix n d).1 = take n (Driver_iter prefix 0 d).1 ∧
  length (Driver_iter prefix n d).1 ≤ n ∧
  db (Driver_iter prefix n d).2 = db d.
Proof.
  intros Hn.
  assert ((Driver_iter prefix n d).1 = take n (Driver_iter prefix 0 d).1) as Heq.
  { unfold Driver_iter. rewrite iter_loop_limit, iter_loop_all.
    - simpl. by rewrite Nat.sub_0_r.
    - apply seek_sorted.
    - apply Forall_forall. by intros b [? _]%elem_of_seek.
    - simpl. lia.
    - apply seek_sorted.
    - apply Forall_forall. by intros b [? _]%elem_of_seek. }
  split_and!; [done| |apply Driver_iter_db].
  rewrite Heq, length_take. lia.
Qed.

(** X3. What [Driver.set] stores under a key is what [Driver.get] decodes
    back; a [set] of [None] is a [delete], after which [get] decodes the
    absence and [__getitem__] raises [KeyError] when that decodes to [None];
    deleting twice is deleting once; and a [set] or a [delete] on one key
    changes what no other key reads. *)
Theorem X3_driver_round_trip (k : string) (v : val) (d : Driver) :
  (Driver_get k (Driver_set k (Some v) d)).1 = decode (Some (encode v)) ∧
  Driver_set k None d = Driver_delete k d ∧
  (Driver_get k (Driver_delete k d)).1 = decode None ∧
  db (Driver_delete k (Driver_delete k d)) = db (Driver_delete k d) ∧
  (∀ k' value, k' ≠ k →
     (Driver_get k' (Driver_set k value d)).1 = (Driver_get k' d).1) ∧
  (Driver_getitem k (Driver_setitem k (Some v) d)).1
    = from_option inr (inl KeyError) (decode (Some (encode v))) ∧
  (decode None = None →
   (Driver_getitem k (Driver_setitem k None d)).1 = inl KeyError) ∧
  db (Driver_get k d).2 = db d.
Proof.
  split_and!; try done.
  - unfold Driver_get, Driver_set. simpl. by rewrite lookup_insert_eq.
  - unfold Driver_get, Driver_delete, Driver_delitem. simpl.
    by rewrite lookup_delete_eq.
  - unfold Driver_delete, Driver_delitem. simpl. apply map_eq. intros i.
    destruct (decide (i = k)) as [->|];
      by rewrite ?lookup_delete_eq, ?lookup_delete_ne.
  - intros k' [x|] Hne; unfold Driver_get, Driver_set, Driver_delitem; simpl;
      by rewrite ?lookup_insert_ne, ?lookup_delete_ne.
  - unfold Driver_getitem, Driver_setitem, Driver_get, Driver_set. simpl.
    rewrite lookup_insert_eq. by destruct (decode _).
  - intros Hnone.
    unfold Driver_getitem, Driver_setitem, Driver_get, Driver_set,
      Driver_delitem. simpl.
    by rewrite lookup_delete_eq, Hnone.
Qed.
End driver_properties.

Section context_properties.
Context `{Codec}.

Lemma only_read_refl (d : Driver) : only_read d d.
Proof. split; [done|]. exists []. by rewrite app_nil_r. Qed.

Lemma only_read_trans (d1 d2 d3 : Driver) :
  only_read d1 d2 → only_read d2 d3 → only_read d1 d3.
Proof.
  intros [Hdb1 (n1 & Hc1 & Hn1)] [Hdb2 (n2 & Hc2 & Hn2)].
  split; [congruence|]. exists (n1 ++ n2).
  split; [by rewrite Hc2, Hc1, app_assoc|]. by apply Forall_app.
Qed.

Lemma only_read_log (c : db_call) (d : Driver) :
  is_write_call c = false → only_read d (db_log c d).
Proof. intros Hc. split; [done|]. exists [c]. split; [done|]. by constructor. Qed.

Lemma iter_loop_only_read p n cursor l d :
  only_read d (iter_loop p n cursor l d).2.
Proof.
  revert l d. induction cursor as [|k cursor IH]; intros l d; simpl.
  - by apply only_read_log.
  - destruct (negb (startswith k p)); [by apply only_read_log|].
    destruct (_ && _); [by apply only_read_log|].
    eapply only_read_trans; [|apply IH]. by apply only_read_log.
Qed.

Lemma Driver_iter_only_read p n d : only_read d (Driver_iter p n d).2.
Proof.
  unfold Driver_iter. eapply only_read_trans; [|apply iter_loop_only_read].
  by apply only_read_log.
Qed.

Lemma fetch_loop_only_read ks (acc : gmap string pyobj) d :
  only_read d
    (foldl (λ '(acc, d) k,
              let '(v, d) := Driver_get k d in (<[k := v]> acc, d))
           (acc, d) ks).2.
Proof.
  revert acc d. induction ks as [|k ks IH]; intros acc d; simpl.
  - apply only_read_refl.
  - eapply only_read_trans; [|apply IH]. by apply only_read_log.
Qed.

(** [items] and [values] hand the context back with nothing but the driver
    touched, and the driver only read. *)
Lemma items_state p s :
  ∃ d, (ContractDriver_items p s).2 = set_driver d s ∧ only_read (driver s) d.
Proof.
  unfold ContractDriver_items.
  pose proof (Driver_iter_only_read p 0 (driver s)) as Hi.
  destruct (Driver_iter p 0 (driver s)) as [l d]. simpl in Hi.
  set (cached := filter _ (cache s)).
  pose proof (fetch_loop_only_read (elements (list_to_set l ∖ dom cached))
                cached d) as Hf.
  destruct (foldl _ _ _) as [m d']. simpl in *.
  exists d'. split; [done|]. by eapply only_read_trans.
Qed.

Lemma values_state p s :
  ∃ d, (ContractDriver_values p s).2 = set_driver d s ∧ only_read (driver s) d.
Proof.
  unfold ContractDriver_values.
  destruct (items_state p s) as (d & Hs & Hr).
  destruct (ContractDriver_items p s) as [m s']. simpl in *. by exists d.
Qed.

Lemma dict_get_set_ne {V} (k k' : string) (v : V) d :
  k' ≠ k → dict_get k' (dict_set k v d) = dict_get k' d.
Proof.
  intros Hne. induction d as [|[k0 v0] d IH]; simpl.
  - by rewrite decide_False.
  - destruct (decide (k = k0)) as [->|]; simpl.
    + by rewrite !decide_False.
    + destruct (decide (k' = k0)); [done|]. apply IH.
Qed.

Lemma dict_get_None {V} (k : string) (d : list (string * V)) :
  k ∉ d.*1 → dict_get k d = None.
Proof.
  induction d as [|[k0 v0] d IH]; simpl; [done|].
  rewrite not_elem_of_cons. intros [Hne Hd]. by rewrite decide_False, IH.
Qed.

Lemma dict_set_nodup {V} (k : string) (v : V) d :
  NoDup d.*1 → NoDup (dict_set k v d).*1.
Proof.
  intros Hd. destruct (decide (k ∈ d.*1)) as [Hin|Hin].
  - by rewrite dict_set_keys.
  - rewrite dict_set_fresh, fmap_app by done. simpl.
    apply NoDup_app. split_and!; [done| |apply NoDup_singleton].
    intros x Hx ->%list_elem_of_singleton. done.
Qed.

Lemma coherent_op (o : op) (s : State) : coherent s → coherent (run_op o s).
Proof.
  intros (Hnd & Hpc & Hrc).
  destruct o as [k|k v| |p|p|]; simpl.
  - unfold CacheDriver_get.
    destruct (default None (cache s !! k)) as [x|] eqn:Hk; simpl; [done|].
    unfold coherent. simpl. split_and!; [done| |].
    + intros k' v' Hp. specialize (Hpc _ _ Hp).
      destruct (decide (k' = k)) as [->|Hne].
      * rewrite Hpc in Hk. done.
      * by rewrite lookup_insert_ne.
    + rewrite dom_insert_L.
      intros x [Hx|Hx]%elem_of_union; apply elem_of_union;
        [by left|right; by apply Hrc].
  - unfold coherent. simpl. split_and!.
    + by apply dict_set_nodup.
    + intros k' v'. destruct (decide (k' = k)) as [->|Hne].
      * rewrite dict_get_set, lookup_insert_eq. by intros [= ->].
      * rewrite dict_get_set_ne, lookup_insert_ne by done. apply Hpc.
    + rewrite dom_insert_L. intros x Hx. apply elem_of_union. right. by apply Hrc.
  - done.
  - destruct (items_state p s) as (d & -> & _). done.
  - destruct (values_state p s) as (d & -> & _). done.
  - unfold coherent. simpl. split_and!; [constructor|done|].
    intros x Hx. by apply elem_of_empty in Hx.
Qed.

(** X4. The well-formedness of a context is kept by every call: the pending
    writes name each key once, the cache holds every pending write of a
    value, and every key read is cached.  It holds after a reset; and in
    such a context [get] returns the value pending for the key, whatever the
    store holds. *)
Theorem X4_context_invariant (ops : list op) (s : State) :
  coherent s →
  coherent (run ops s) ∧
  coherent (CacheDriver_clear_pending_state (run ops s)) ∧
  ∀ k v, dict_get k (pending_writes (run ops s)) = Some (Some v) →
         (CacheDriver_get k (run ops s)).1 = Some v.
Proof.
  intros Hs.
  assert (coherent (run ops s)) as Hr.
  { revert s Hs. induction ops as [|o ops IH]; intros s Hs; [done|].
    apply IH. by apply coherent_op. }
  split_and!; [done| |].
  - apply (coherent_op op_clear_pending_state _ Hr).
  - intros k v Hp. destruct Hr as (_ & Hpc & _).
    by rewrite (CacheDriver_get_hit _ _ _ (Hpc _ _ Hp)).
Qed.

Lemma only_read_op (o : op) (s : State) :
  is_commit o = false → only_read (driver s) (driver (run_op o s)).
Proof.
  intros Ho. destruct o as [k|k v| |p|p|]; simpl; try done.
  - unfold CacheDriver_get.
    destruct (default None (cache s !! k)); simpl; [apply only_read_refl|].
    by apply only_read_log.
  - apply only_read_refl.
  - by destruct (items_state p s) as (d & -> & Hr).
  - by destruct (values_state p s) as (d & -> & Hr).
  - apply only_read_refl.
Qed.

Lemma only_read_run (ops : list op) (s : State) :
  Forall (λ o, is_commit o = false) ops →
  only_read (driver s) (driver (run ops s)).
Proof.
  intros Hops. revert s.
  induction Hops as [|o ops Ho _ IH]; intros s; [apply only_read_refl|].
  eapply only_read_trans; [by apply only_read_op|apply IH].
Qed.

(** X5. Only [commit] writes to the store: through any calls other than
    [commit] (reads, writes, prefix queries, resets) the stored bytes stay
    as they were, and the client is asked for no [set] and no [delete]; so
    a read that goes past the cache still returns what was persisted before
    the first uncommitted write. *)
Theorem X5_only_commit_writes (ops : list op) (s : State) :
  Forall (λ o, is_commit o = false) ops →
  db (driver (run ops s)) = db (driver s) ∧
  (∃ new, db_calls (driver (run ops s)) = db_calls (driver s) ++ new ∧
          Forall (λ c, is_write_call c = false) new) ∧
  ∀ k, (Driver_get k (driver (run ops s))).1 = (Driver_get k (driver s)).1.
Proof.
  intros Hops. destruct (only_read_run ops s Hops) as [Hdb Hnew].
  split_and!; [done..|]. intros k. unfold Driver_get. simpl. by rewrite Hdb.
Qed.

(** X6. [clear_pending_state] is a rollback: after any calls other than
    [commit], a reset leaves an empty cache, read set and pending-write
    dictionary; a [get] then returns what the store held before those calls,
    and a [commit] then makes no call on the store at all. *)
Theorem X6_rollback (ops : list op) (s : State) (k : string) :
  Forall (λ o, is_commit o = false) ops →
  let s1 := CacheDriver_clear_pending_state (run ops s) in
  cache s1 = ∅ ∧ reads s1 = ∅ ∧ pending_writes s1 = [] ∧
  (CacheDriver_get k s1).1 = decode (db (driver s) !! k) ∧
  driver (CacheDriver_commit s1) = driver s1.
Proof.
  intros Hops s1. destruct (only_read_run ops s Hops) as [Hdb _].
  split_and!; try done.
  rewrite CacheDriver_get_miss by done. simpl. by rewrite Hdb.
Qed.

Lemma last_write_None k (l : list (string * pyobj)) :
  k ∉ l.*1 → last_write k l None = None.
Proof.
  induction l as [|[k' v] l IH]; [done|].
  rewrite fmap_cons, not_elem_of_cons. intros [Hne Hl].
  rewrite last_write_cons, decide_False by done. by apply IH.
Qed.

Lemma last_write_dict_get k (l : list (string * pyobj)) :
  NoDup l.*1 →
  last_write k l None = (λ v : pyobj, encode <$> v) <$> dict_get k l.
Proof.
  induction l as [|[k' v] l IH]; [done|].
  rewrite fmap_cons. intros [Hk' Hl]%NoDup_cons.
  rewrite last_write_cons. cbn [dict_get].
  destruct (decide (k = k')) as [->|Hne].
  - by rewrite last_write_acc, last_write_None.
  - by apply IH.
Qed.

(** X7. A commit makes the pending writes durable.  In a context whose
    pending writes name each key once, after [commit] the store holds, for a
    key with a pending value, the encoding of that value, for a key with a
    pending [None], nothing, and for any other key what it held; a fresh
    context (after a reset) reads back the decoding of exactly that. *)
Theorem X7_commit_is_durable (s : State) (k : string) :
  NoDup (pending_writes s).*1 →
  let s1 := CacheDriver_commit s in
  let stored :=
    match dict_get k (pending_writes s) with
    | Some v => encode <$> v
    | None => db (driver s) !! k
    end in
  db (driver s1) !! k = stored ∧
  (CacheDriver_get k (CacheDriver_clear_pending_state s1)).1 = decode stored.
Proof.
  intros Hnd s1 stored.
  assert (db (driver s1) !! k = stored) as Hs.
  { unfold s1, CacheDriver_commit. simpl.
    destruct (commit_fold (pending_writes s) (driver s)) as [-> _].
    rewrite lookup_apply_writes, last_write_dict_get by done.
    unfold stored. by destruct (dict_get k (pending_writes s)). }
  split; [done|]. rewrite CacheDriver_get_miss by done. simpl.
  by rewrite <-Hs.
Qed.

(** X8. Metering follows the reads and the writes, one call each: a [get]
    is metered once, as a read of the value it returns, a [set] once, as a
    write of its value, and [commit], [items], [values] and
    [clear_pending_state] are not metered; so a run adds as many metering
    calls as it has [get] and [set] calls. *)
Theorem X8_metering (ops : list op) (s : State) :
  (∀ k, rt_calls (CacheDriver_get k s).2
        = rt_calls s ++ [deduct_read k (CacheDriver_get k s).1]) ∧
  (∀ k v, rt_calls (CacheDriver_set k v s) = rt_calls s ++ [deduct_write k v]) ∧
  (∀ o, metered o = false → rt_calls (run_op o s) = rt_calls s) ∧
  length (rt_calls (run ops s))
  = length (rt_calls s) + length (filter (λ o, metered o) ops).
Proof.
  assert (∀ s k, rt_calls (CacheDriver_get k s).2
            = rt_calls s ++ [deduct_read k (CacheDriver_get k s).1]) as Hget.
  { intros s0 k. unfold CacheDriver_get.
    by destruct (default None (cache s0 !! k)). }
  assert (∀ s o, metered o = false → rt_calls (run_op o s) = rt_calls s)
    as Hfree.
  { intros s0 [k|k v| |p|p|] Ho; simpl; try done.
    - by destruct (items_state p s0) as (d & -> & _).
    - by destruct (values_state p s0) as (d & -> & _). }
  split_and!; [done|done|by apply Hfree|].
  revert s. induction ops as [|o ops IH]; intros s; [simpl; lia|].
  change (run (o :: ops) s) with (run ops (run_op o s)). rewrite IH.
  destruct (metered o) eqn:Ho.
  - rewrite filter_cons_True by by apply Is_true_true_2.
    destruct o as [k|k v| |p|p|]; try done; simpl.
    + rewrite Hget, length_app. simpl. lia.
    + rewrite length_app. simpl. lia.
  - rewrite filter_cons_False by by apply Is_true_false_2.
    by rewrite Hfree.
Qed.
End context_properties.

(** * Further properties of the key space *)

Section separator_facts.
(** A string holds the one-character string of [a] when [a] is its first
    character or its tail holds it. *)
Lemma contains_char_cons (a b : Ascii.ascii) (s : string) :
  contains (String a "") (String b s)
  = bool_decide (a = b) || contains (String a "") s.
Proof.
  cbn [contains String.prefix].
  destruct (Ascii.ascii_dec a b) as [->|Hne].
  - rewrite bool_decide_eq_true_2 by done. by destruct s.
  - by rewrite bool_decide_eq_false_2.
Qed.

Lemma contains_char_app (a : Ascii.ascii) (x r : string) :
  contains (String a "") (x +:+ String a r) = true.
Proof.
  induction x as [|b x IH].
  - rewrite string_app_nil_l, contains_char_cons.
    by rewrite bool_decide_eq_true_2.
  - rewrite string_app_cons, contains_char_cons, IH. apply orb_true_r.
Qed.

(** A string with a separator in it is a prefix only of strings with a
    separator. *)
Lemma prefix_contains_char (a : Ascii.ascii) (x r y : string) :
  String.prefix (x +:+ String a r) y = true → contains (String a "") y = true.
Proof.
  revert y. induction x as [|b x IH]; intros [|c y].
  - done.
  - rewrite string_app_nil_l, prefix_cons, contains_char_cons.
    intros [Hac _]%andb_true_iff. by rewrite Hac.
  - done.
  - rewrite string_app_cons, prefix_cons, contains_char_cons.
    intros [_ Hp]%andb_true_iff. rewrite (IH _ Hp). apply orb_true_r.
Qed.

(** The first separator of a string splits it in one way only. *)
Lemma prefix_split (a : Ascii.ascii) (x y r c : string) :
  contains (String a "") x = false → contains (String a "") y = false →
  String.prefix (x +:+ String a r) (y +:+ String a c) = true →
  x = y ∧ String.prefix r c = true.
Proof.
  revert y. induction x as [|b x IH]; intros [|e y] Hx Hy.
  - rewrite !string_app_nil_l, prefix_cons.
    by intros [_ ?]%andb_true_iff.
  - rewrite string_app_nil_l, string_app_cons, prefix_cons.
    intros [Hae%bool_decide_eq_true _]%andb_true_iff.
    rewrite contains_char_cons, bool_decide_eq_true_2 in Hy by done. done.
  - rewrite string_app_nil_l, string_app_cons, prefix_cons.
    intros [Hba%bool_decide_eq_true _]%andb_true_iff.
    rewrite contains_char_cons, bool_decide_eq_true_2 in Hx by done. done.
  - rewrite !string_app_cons, prefix_cons.
    intros [->%bool_decide_eq_true Hp]%andb_true_iff.
    rewrite contains_char_cons in Hx, Hy.
    apply orb_false_iff in Hx as [_ Hx]. apply orb_false_iff in Hy as [_ Hy].
    destruct (IH y Hx Hy Hp) as [-> ?]. done.
Qed.

Lemma prefix_refl (s : string) : String.prefix s s = true.
Proof. rewrite <-(string_app_nil_r s) at 2. apply prefix_app_r. Qed.

Lemma split_unique (a : Ascii.ascii) (x y r c : string) :
  contains (String a "") x = false → contains (String a "") y = false →
  x +:+ String a r = y +:+ String a c → x = y ∧ r = c.
Proof.
  intros Hx Hy Heq.
  destruct (prefix_split a x y r c Hx Hy) as [-> _].
  { rewrite Heq. apply prefix_refl. }
  split; [done|]. apply String.app_inj in Heq. by injection Heq.
Qed.

(** Joined by a one-character separator they do not hold, the parts of a
    string can be read back. *)
Lemma concat_inj (a : Ascii.ascii) (xs ys : list string) :
  xs ≠ [] → ys ≠ [] →
  Forall (λ x, contains (String a "") x = false) xs →
  Forall (λ y, contains (String a "") y = false) ys →
  String.concat (String a "") xs = String.concat (String a "") ys → xs = ys.
Proof.
  revert ys. induction xs as [|x xs IH]; intros ys Hxs Hys Fx Fy; [done|].
  destruct ys as [|y ys]; [done|].
  apply Forall_cons in Fx as [Hx Fx]. apply Forall_cons in Fy as [Hy Fy].
  destruct xs as [|x' xs], ys as [|y' ys].
  - by intros [= ->].
  - change (x = y +:+ String a (String.concat (String a "") (y' :: ys)) → [x] = y :: y' :: ys).
    intros ->. by rewrite contains_char_app in Hx.
  - change (x +:+ String a (String.concat (String a "") (x' :: xs)) = y → x :: x' :: xs = [y]).
    intros <-. by rewrite contains_char_app in Hy.
  - change (x +:+ String a (String.concat (String a "") (x' :: xs))
            = y +:+ String a (String.concat (String a "") (y' :: ys))
            → x :: x' :: xs = y :: y' :: ys).
    intros [-> Hc]%split_unique; [|done..].
    f_equal. by apply IH.
Qed.

(** The joined string of [xs], followed by a separator, starts the joined
    string of [ys] exactly when [ys] is [xs] followed by more parts. *)
Lemma concat_prefix (a : Ascii.ascii) (xs ys : list string) :
  xs ≠ [] → ys ≠ [] →
  Forall (λ x, contains (String a "") x = false) xs →
  Forall (λ y, contains (String a "") y = false) ys →
  String.prefix (String.concat (String a "") xs +:+ String a "")
                (String.concat (String a "") ys) = true
  ↔ ∃ rest, rest ≠ [] ∧ ys = xs ++ rest.
Proof.
  revert ys. induction xs as [|x xs IH]; intros ys Hxs Hys Fx Fy; [done|].
  destruct ys as [|y ys]; [done|].
  apply Forall_cons in Fx as [Hx Fx]. apply Forall_cons in Fy as [Hy Fy].
  destruct xs as [|x' xs], ys as [|y' ys].
  - change (String.prefix (x +:+ String a "") y = true
            ↔ ∃ rest, rest ≠ [] ∧ [y] = [x] ++ rest).
    split.
    + intros Hp%prefix_contains_char. congruence.
    + intros (rest & Hr & [= -> <-]). done.
  - change (String.prefix (x +:+ String a "")
              (y +:+ String a (String.concat (String a "") (y' :: ys))) = true
            ↔ ∃ rest, rest ≠ [] ∧ y :: y' :: ys = [x] ++ rest).
    split.
    + intros [-> _]%prefix_split; [|done..]. by exists (y' :: ys).
    + intros (rest & Hr & [= -> <-]).
      rewrite prefix_app_same, prefix_cons, prefix_nil.
      by rewrite bool_decide_eq_true_2.
  - change (String.prefix
              ((x +:+ String a (String.concat (String a "") (x' :: xs)))
                 +:+ String a "") y = true
            ↔ ∃ rest, rest ≠ [] ∧ [y] = (x :: x' :: xs) ++ rest).
    split.
    + rewrite string_app_assoc, string_app_cons.
      intros Hp%prefix_contains_char. congruence.
    + intros (rest & Hr & Heq). simpl in Heq. discriminate Heq.
  - change (String.prefix
              ((x +:+ String a (String.concat (String a "") (x' :: xs)))
                 +:+ String a "")
              (y +:+ String a (String.concat (String a "") (y' :: ys))) = true
            ↔ ∃ rest, rest ≠ [] ∧ y :: y' :: ys = (x :: x' :: xs) ++ rest).
    rewrite string_app_assoc, string_app_cons. split.
    + intros [-> Hp]%prefix_split; [|done..].
      apply IH in Hp as (rest & Hr & Heq); [|done..].
      exists rest. split; [done|]. by rewrite Heq.
    + intros (rest & Hr & [= -> Heq]).
      rewrite prefix_app_same, prefix_cons, bool_decide_eq_true_2 by done.
      apply IH; [done..|]. exists rest. split; [done|]. by simplify_eq/=.
Qed.
End separator_facts.

Section key_space_properties.
Context `{Codec, Bridge, Constants}.

(** X9. With a one-character driver delimiter, [make_key] keeps contracts
    apart: two pairs of a contract name without the delimiter and a field
    name give the same key only when the contract names are the same and the
    field names are the same. *)
Theorem X9_make_key_injective (a : Ascii.ascii) (c1 f1 c2 f2 : string) :
  driver_delimiter = String a "" →
  contains driver_delimiter c1 = false →
  contains driver_delimiter c2 = false →
  ContractDriver_make_key c1 f1 ArgsNone = ContractDriver_make_key c2 f2 ArgsNone →
  c1 = c2 ∧ f1 = f2.
Proof.
  unfold ContractDriver_make_key. intros -> Hc1 Hc2.
  rewrite !string_app_cons, !string_app_nil_l. by apply split_unique.
Qed.

(** A coordinate that passes the validation comes back as its composed
    string, and none of its dimensions holds the delimiter. *)
Lemma valid_coordinate (h : Hash) (key : hash_key) (k : string) :
  hash_delimiter h ≠ "" →
  Hash__validate_key h key = Ok k →
  k = coord_string (hash_delimiter h) key ∧
  Forall (λ x, contains DELIMITER x = false) (map str (coord_dims key)).
Proof.
  intros Hd Hk. pose proof (validate_key_spec h key Hd) as Hv.
  destruct (invalid_key h key) eqn:Hinv.
  { destruct Hv as [msg Hv]. congruence. }
  split; [congruence|].
  unfold invalid_key in Hinv.
  apply orb_false_iff in Hinv as [Hinv _].
  apply orb_false_iff in Hinv as [_ Hill].
  apply Forall_fmap, Forall_forall. intros x Hx. simpl.
  destruct (contains DELIMITER (str x)) eqn:Hc; [|done].
  assert (existsb illegal (coord_dims key) = true) as Hyes; [|congruence].
  apply existsb_exists. exists x. split; [by apply list_elem_of_In|].
  unfold illegal. by rewrite Hc.
Qed.

(** Two valid coordinates of a hash share their cell exactly when their
    dimensions have the same string forms. *)
Lemma hash_cells (a : Ascii.ascii) (h : Hash) (key1 key2 : hash_key)
    (k1 k2 : string) :
  DELIMITER = String a "" → hash_delimiter h = DELIMITER →
  coord_dims key1 ≠ [] → coord_dims key2 ≠ [] →
  Hash__validate_key h key1 = Ok k1 → Hash__validate_key h key2 = Ok k2 →
  hash_key_ h +:+ hash_delimiter h +:+ k1
    = hash_key_ h +:+ hash_delimiter h +:+ k2
  ↔ map str (coord_dims key1) = map str (coord_dims key2).
Proof.
  intros HD Hh Hn1 Hn2 Hk1 Hk2.
  assert (hash_delimiter h ≠ "") as Hd by by rewrite Hh, HD.
  destruct (valid_coordinate h key1 k1 Hd Hk1) as [-> F1].
  destruct (valid_coordinate h key2 k2 Hd Hk2) as [-> F2].
  unfold coord_string. rewrite Hh, HD in *. split.
  - intros Heq. do 2 apply String.app_inj in Heq.
    apply (concat_inj a); [by destruct (coord_dims key1)
                          |by destruct (coord_dims key2)|done..].
  - by intros ->.
Qed.

(** X10. With a one-character delimiter, the cells of a hash are told apart
    by the string forms of their dimensions: two valid, non-empty
    coordinates are stored under the same key exactly when they have as many
    dimensions and the same string form in each. *)
Theorem X10_hash_cells (a : Ascii.ascii) (contract name : string)
    (default_value : pyobj) (key1 key2 : hash_key) (k1 k2 : string) :
  let h := Hash_init contract name default_value in
  DELIMITER = String a "" →
  coord_dims key1 ≠ [] → coord_dims key2 ≠ [] →
  Hash__validate_key h key1 = Ok k1 → Hash__validate_key h key2 = Ok k2 →
  hash_key_ h +:+ hash_delimiter h +:+ k1
    = hash_key_ h +:+ hash_delimiter h +:+ k2
  ↔ map str (coord_dims key1) = map str (coord_dims key2).
Proof. intros h HD. by apply (hash_cells a). Qed.

Lemma get_set_ne (k1 k2 : string) (value : pyobj) (s : State) :
  k2 ≠ k1 →
  (CacheDriver_get k2 (CacheDriver_set k1 value s)).1 = (CacheDriver_get k2 s).1.
Proof.
  intros Hne. unfold CacheDriver_get, CacheDriver_set. simpl.
  rewrite lookup_insert_ne by done.
  by destruct (default None (cache s !! k2)).
Qed.

Lemma Hash_getitem_eval (h : Hash) (key : hash_key) (k : string) (s : State) :
  Hash__validate_key h key = Ok k →
  eval (Hash_getitem h key) s
  = Some (normalize
            (let stored :=
               (CacheDriver_get (hash_key_ h +:+ hash_delimiter h +:+ k) s).1 in
             if stored is Some _ then stored else hash_default_value h)).
Proof.
  intros Hk. unfold eval, Hash_getitem. rewrite bind_unfold, Hk.
  unfold check, mret, M_ret, Hash__get. rewrite bind_unfold. unfold call.
  by destruct (CacheDriver_get _ s) as [[x|] s'].
Qed.

(** X11. Item assignment and item lookup of a hash compose as in a
    dictionary: after [h[key1] = v] with a value, [h[key1]] returns [v]
    (through the decimal conversion), and [h[key2]], for a valid coordinate
    with other dimension strings, returns what it returned before. *)
Theorem X11_hash_set_get (a : Ascii.ascii) (contract name : string)
    (default_value : pyobj) (key1 key2 : hash_key) (k2 : string) (v : val)
    (s s1 : State) :
  let h := Hash_init contract name default_value in
  DELIMITER = String a "" →
  coord_dims key1 ≠ [] → coord_dims key2 ≠ [] →
  Hash_setitem h key1 (Some v) s = Return () s1 →
  Hash__validate_key h key2 = Ok k2 →
  eval (Hash_getitem h key1) s1 = Some (normalize (Some v)) ∧
  (map str (coord_dims key1) ≠ map str (coord_dims key2) →
   eval (Hash_getitem h key2) s1 = eval (Hash_getitem h key2) s).
Proof.
  intros h HD Hn1 Hn2 (k1 & Hk1 & ->)%Hash_setitem_inv Hk2. split.
  - rewrite (Hash_getitem_eval _ _ _ _ Hk1), get_after_set. done.
  - intros Hne. rewrite !(Hash_getitem_eval _ _ _ _ Hk2).
    rewrite get_set_ne; [done|].
    intros Heq. apply Hne. symmetry.
    by apply (hash_cells a h key2 key1 k2 k1).
Qed.

(** X12. The prefix of [all], [_items] and [clear] selects by leading
    dimensions.  With a one-character delimiter, the key of a valid,
    non-empty coordinate starts with the prefix built for the arguments
    exactly when the arguments compose to the empty string (no argument, or
    the empty string alone: the whole hash is selected), or the dimension
    strings of the coordinate are those of the arguments followed by at
    least one more. *)
Theorem X12_hash_prefix (a : Ascii.ascii) (contract name : string)
    (default_value : pyobj) (args : list scalar) (key : hash_key)
    (k prefix : string) :
  let h := Hash_init contract name default_value in
  DELIMITER = String a "" →
  coord_dims key ≠ [] →
  Hash__prefix_for_args h args = Ok prefix →
  Hash__validate_key h key = Ok k →
  startswith (hash_key_ h +:+ hash_delimiter h +:+ k) prefix = true
  ↔ coord_string (hash_delimiter h) (KeyTuple args) = ""
    ∨ ∃ rest, rest ≠ [] ∧ map str (coord_dims key) = map str args ++ rest.
Proof.
  intros h HD Hn Hp Hk.
  assert (hash_delimiter h ≠ "") as Hd by (simpl; by rewrite HD).
  unfold Hash__prefix_for_args in Hp.
  destruct (Hash__validate_key h (KeyTuple args)) as [multi|e] eqn:Hm; [|done].
  injection Hp as <-.
  destruct (valid_coordinate h _ _ Hd Hm) as [-> Fa].
  destruct (valid_coordinate h _ _ Hd Hk) as [-> Fk].
  unfold startswith. subst h. cbn [hash_key_ hash_delimiter Hash_init] in *.
  rewrite <-(string_app_assoc _ _ (coord_string _ key)).
  destruct (decide (coord_string DELIMITER (KeyTuple args) ≠ ""))
    as [Hne|Heq].
  - rewrite prefix_app_same.
    unfold coord_string in *. rewrite HD in *.
    simpl coord_dims in *. rewrite concat_prefix.
    + split; [by right|]. by intros [?|?].
    + by destruct args.
    + by destruct (coord_dims key).
    + done.
    + done.
  - apply dec_stable in Heq. rewrite prefix_app_r. split; [by left|done].
Qed.

(** X13. A coordinate of one dimension and that dimension alone are the
    same coordinate: on a hash with a non-empty delimiter and room for one
    dimension, [_validate_key] gives [(k,)] and [k] the same answer, the
    same string or the same error, unless [k] is a slice; and it gives the
    same answer to any two objects with the same string form. *)
Theorem X13_one_dimension (h : Hash) (k k' : scalar) :
  hash_delimiter h ≠ "" → 1 ≤ MAX_HASH_DIMENSIONS → is_slice k = false →
  Hash__validate_key h (KeyTuple [k]) = Hash__validate_key h (KeyScalar k) ∧
  (str k' = str k →
   Hash__validate_key h (KeyScalar k') = Hash__validate_key h (KeyScalar k)).
Proof.
  intros Hd Hmax Hs. split.
  - unfold Hash__validate_key. cbn [length validate_dims].
    destruct (Nat.leb_spec 1 MAX_HASH_DIMENSIONS); [|lia].
    rewrite Hs. cbv zeta.
    destruct (contains DELIMITER (str k)); [done|].
    destruct (contains INDEX_SEPARATOR (str k)); [done|].
    by rewrite string_app_nil_l, drop_last_app.
  - intros Heq. unfold Hash__validate_key. cbv zeta. by rewrite Heq.
Qed.
(** X16. [hset] and [hget] address one field of one contract.  On a driver
    whose delimiter is one character: after [hset(c1, f1, v)] with a value,
    [hget(c1, f1)] returns [v] and the store has not been touched; and
    [hget] of any other contract or field returns what it returned before,
    provided the delimiter occurs in neither contract name. *)
Theorem X16_hset_hget (a : Ascii.ascii) (c1 f1 : string) (v : val)
    (s : State) :
  driver_delimiter = String a "" →
  let s1 := ContractDriver_hset c1 f1 (Some v) s in
  (ContractDriver_hget c1 f1 s1).1 = Some v ∧
  driver s1 = driver s ∧
  ∀ c2 f2,
    contains driver_delimiter c1 = false →
    contains driver_delimiter c2 = false →
    (c2, f2) ≠ (c1, f1) →
    (ContractDriver_hget c2 f2 s1).1 = (ContractDriver_hget c2 f2 s).1.
Proof.
  intros Hd s1. subst s1. unfold ContractDriver_hget, ContractDriver_hset.
  split; [by rewrite get_after_set|]. split; [done|].
  intros c2 f2 Hc1 Hc2 Hne. apply get_set_ne. intros Heq. apply Hne.
  unfold ContractDriver_make_key in Heq. rewrite Hd in Heq, Hc1, Hc2.
  rewrite !string_app_cons, !string_app_nil_l in Heq.
  apply split_unique in Heq as [-> ->]; done.
Qed.
End key_space_properties.

(** * Further properties of the storage objects *)

Section variable_properties.
Context `{Codec, Bridge, Constants}.

(** X14. The declared type of a [Variable] is enforced on every write.  A
    value fits when no type is declared, when its class is the declared one,
    or when it is a boolean and the declared type is [int].  [set] with a
    value that fits stages the write under the variable's key, and [get]
    then returns the value (when it is not [None]); [set] with any other
    value, [None] on a typed variable included, raises an assertion error
    and leaves the state as it was. *)
Theorem X14_variable_type_check (contract name : string) (t : option pytype)
    (value : pyobj) (s : State) :
  let v := Variable_init contract name t in
  let fits := match t with
              | Some u => type_of value = u ∨ (type_of value = t_bool ∧ u = t_int)
              | None => True
              end in
  (fits → ∃ s1, Variable_set v value s = Return () s1 ∧
                dict_get (var_key v) (pending_writes s1) = Some value ∧
                (value ≠ None → eval (Variable_get v) s1 = Some value)) ∧
  (¬ fits → ∃ msg, Variable_set v value s = Raise (AssertionError msg) s).
Proof.
  intros v fits.
  assert (Variable_set v value s
          = if match t with Some u => isinstance value [u] | None => true end
            then Return () (CacheDriver_set (var_key v) value s)
            else Raise (AssertionError
                   ("Wrong type passed to variable! Expected "
                      +:+ repr_type (default t_NoneType t) +:+ ", got "
                      +:+ repr_type (type_of value) +:+ ".")) s) as Hset.
  { unfold Variable_set. rewrite bind_unfold. subst v. cbn [var_type Variable_init].
    destruct t as [u|]; [|done]. unfold assert.
    by destruct (isinstance value [u]). }
  assert (fits ↔ match t with Some u => isinstance value [u] | None => true end
                 = true) as Hfits.
  { subst fits. destruct t as [u|]; [|done].
    unfold isinstance, issubclass, issubclass1. cbn [existsb].
    rewrite orb_false_r, orb_true_iff, andb_true_iff, !bool_decide_eq_true.
    done. }
  rewrite Hset. split.
  - intros ->%Hfits. eexists. split; [done|]. split.
    + unfold CacheDriver_set. cbn [pending_writes set_pending_writes].
      apply dict_get_set.
    + destruct value as [x|]; [|done]. intros _.
      unfold eval, Variable_get, call. by rewrite get_after_set.
  - intros Hno. destruct (match t with Some _ => _ | None => _ end).
    + destruct Hno. by apply Hfits.
    + by eexists.
Qed.
End variable_properties.

Section event_properties.
Context `{Codec, Bridge, Constants}.

Lemma normalized_names (args : list (string * arg_spec)) :
  (normalized args).*1 = args.*1.
Proof.
  unfold normalized. induction args as [|[n a] args IH]; [done|].
  simpl. f_equal. apply IH.
Qed.

Lemma indexed_for_normalized (args : list (string * arg_spec)) (arg : string) :
  indexed_for (normalized args) arg = indexed_for args arg.
Proof.
  unfold indexed_for. induction args as [|[n a] args IH]; [done|].
  simpl. by destruct (decide (arg = n)).
Qed.

Lemma filter_ext_elem {A} (P Q : A → Prop) `{!∀ x, Decision (P x)}
    `{!∀ x, Decision (Q x)} (l : list A) :
  (∀ x, x ∈ l → P x ↔ Q x) → filter P l = filter Q l.
Proof.
  induction l as [|x l IH]; [done|]. intros HPQ.
  rewrite !filter_cons, IH by (intros y Hy; apply HPQ; by right).
  destruct (decide (P x)) as [HP|HP], (decide (Q x)) as [HQ|HQ]; try done.
  - destruct HQ. by apply (HPQ x); [left|].
  - destruct HP. by apply (HPQ x); [left|].
Qed.

(** In a schema with distinct names, the names flagged indexed are as many
    as the flagged arguments. *)
Lemma indexed_names (args : list (string * arg_spec)) :
  NoDup args.*1 →
  length (filter (λ arg, Is_true (indexed_for args arg)) args.*1)
  = length (filter (λ a : string * arg_spec, Is_true (is_indexed a.2)) args).
Proof.
  induction args as [|[n a] args IH]; [done|].
  rewrite fmap_cons, NoDup_cons. intros [Hn Hnd].
  rewrite !filter_cons. cbn [fst snd].
  assert (indexed_for ((n, a) :: args) n = is_indexed a) as ->.
  { unfold indexed_for. simpl. by rewrite decide_True. }
  rewrite (filter_ext_elem (λ arg, Is_true (indexed_for ((n, a) :: args) arg))
             (λ arg, Is_true (indexed_for args arg))).
  - destruct (decide (Is_true (is_indexed a))); simpl; by rewrite IH.
  - intros x Hx. unfold indexed_for. simpl.
    rewrite decide_False; [done|]. by intros ->.
Qed.

(** The two groups of an event are the schema's arguments, each once. *)
Lemma group_split (le : LogEvent) (event_data : gmap string pyobj) :
  group le event_data true ++ group le event_data false
  ≡ₚ map (λ arg, (arg, getitem event_data arg)) (le_args le).*1.
Proof.
  unfold group. rewrite <-map_app. apply Permutation_map.
  induction (le_args le).*1 as [|x l IH]; [done|].
  rewrite !filter_cons. destruct (indexed_for (le_args le) x); simpl.
  - by rewrite IH.
  - by rewrite <-Permutation_middle, IH.
Qed.

(** Data with as many entries as a schema of distinct names, and an entry
    for each name, have the schema's names and no other. *)
Lemma exact_names (names : list string) (event_data : gmap string pyobj) :
  NoDup names → size event_data = length names →
  (∀ arg, arg ∈ names → is_Some (event_data !! arg)) →
  dom event_data = list_to_set names ∧
  map (λ arg, (arg, getitem event_data arg)) names ≡ₚ map_to_list event_data.
Proof.
  intros Hnd Hsize Hall.
  assert (dom event_data = list_to_set names) as Hdom.
  { symmetry. apply set_subseteq_size_eq.
    - intros x Hx%elem_of_list_to_set. by apply elem_of_dom, Hall.
    - rewrite size_dom, size_list_to_set by done. lia. }
  split; [done|]. apply NoDup_Permutation.
  - apply (NoDup_fmap_1 fst). change (map ?f ?l) with (f <$> l).
    rewrite <-list_fmap_compose. by rewrite list_fmap_id.
  - apply NoDup_map_to_list.
  - intros [k v]. rewrite elem_of_map_to_list.
    change (map ?f ?l) with (f <$> l). rewrite list_elem_of_fmap. split.
    + intros (arg & [= -> ->] & Harg). unfold getitem.
      by destruct (Hall _ Harg) as [x ->].
    + intros Hk. exists k. split.
      * unfold getitem. by rewrite Hk.
      * apply (elem_of_list_to_set (C := gset string)). rewrite <-Hdom.
        by apply elem_of_dom.
Qed.

(** X15. What an event built by the constructor records.  For a schema with
    distinct names that [LogEvent] accepts, whenever [write_event] returns,
    the data had exactly the schema's names as keys, the appended record
    holds every entry of the data once, spread over its indexed and its
    other arguments, with at most three indexed ones, and one write was
    metered per argument. *)
Theorem X15_event_record (contract name : string)
    (args : list (string * arg_spec)) (le : LogEvent)
    (event_data : gmap string pyobj) (s s' : State) :
  NoDup args.*1 →
  LogEvent_init contract name args = Ok le →
  LogEvent_write_event le event_data s = Return () s' →
  dom event_data = list_to_set args.*1 ∧
  length (rt_calls s') = length (rt_calls s) + length args ∧
  ∃ e, events s' = events s ++ [e] ∧
       ev_indexed_args e ++ ev_non_indexed_args e ≡ₚ map_to_list event_data ∧
       length (ev_indexed_args e) ≤ 3.
Proof.
  intros Hnd Hinit Hw.
  pose proof (LogEvent_init_spec contract name args) as Hi.
  destruct (schema_rejected args) eqn:Hrej.
  { destruct Hi as [msg Hi]. congruence. }
  rewrite Hinit in Hi. injection Hi as ->.
  rewrite write_event_spec in Hw. cbn [le_args] in Hw.
  destruct (bool_decide_reflect
              (size event_data = length (normalized args))) as [Hsize|];
    [|done].
  cbn [negb] in Hw.
  pose proof (find_existsb (offending (normalized args) event_data)
                (normalized args).*1) as Hf.
  destruct (find _ _) as [arg|]; [done|]. injection Hw as <-.
  set (le := mkLogEvent _ _ _ _).
  destruct (exact_names (normalized args).*1 event_data) as [Hdom Hperm].
  { by rewrite normalized_names. }
  { by rewrite length_fmap. }
  { intros arg Harg. destruct (event_data !! arg) eqn:Hl; [done|].
    assert (existsb (offending (normalized args) event_data)
              (normalized args).*1 = true) as Hyes; [|congruence].
    apply existsb_exists. exists arg. split; [by apply list_elem_of_In|].
    unfold offending. by rewrite Hl. }
  pose proof (group_split le event_data) as Hg. cbn [le_args le] in Hg.
  destruct (meter_fold (group le event_data true) s)
    as (Hr1 & _ & _ & _ & _ & He1 & _).
  destruct (meter_fold (group le event_data false)
              (foldl (λ s kv, rt_log (meter_kv kv) s) s
                 (group le event_data true)))
    as (Hr2 & _ & _ & _ & _ & He2 & _).
  cbv zeta in Hr1, Hr2, He1, He2.
  rewrite normalized_names in Hdom. split; [done|]. split.
  - cbn [add_event rt_calls]. rewrite Hr2, Hr1, <-app_assoc, <-map_app.
    rewrite length_app, length_map, Hg, length_map, normalized_names.
    by rewrite length_fmap.
  - eexists. split; [|split].
    + cbn [add_event events]. by rewrite He2, He1.
    + cbn [ev_indexed_args ev_non_indexed_args]. by rewrite Hg.
    + cbn [ev_indexed_args]. unfold group. rewrite length_map.
      cbn [le_args le]. rewrite normalized_names.
      rewrite (filter_ext_elem _ (λ arg, Is_true (indexed_for args arg)))
        by (intros x _; by rewrite indexed_for_normalized).
      rewrite indexed_names by done.
      unfold schema_rejected in Hrej.
      apply orb_false_iff in Hrej as [Hrej _].
      apply orb_false_iff in Hrej as [_ Hrej].
      by apply Nat.ltb_ge in Hrej.
Qed.
End event_properties.

(** * Concrete runs *)

#[local] Existing Instance test_codec.
#[local] Existing Instance test_bridge.
#[local] Existing Instance test_constants.

(** ** The unit tests of the bindings, replayed *)

(** [test_setitems]: a write on two dimensions lands, after a commit, under
    [blah.scoob:stu:raghu]. *)
Example test_setitems :
  let h := Hash_init "blah" "scoob" None in
  let s := exec (Hash_setitem h (KeyScalar (SStr "stu")) (Some (VInt 123))) fresh in
  let s := exec (Hash_setitem h (KeyTuple [SStr "stu"; SStr "raghu"])
                              (Some (VInt 1000))) s in
  (Driver_get "blah.scoob:stu:raghu" (driver (CacheDriver_commit s))).1
  = Some (VInt 1000).
Proof. vm_compute. reflexivity. Qed.

(** [test_setitem_delimiter_illegal], [test_setitems_key_too_large] and
    [test_setitems_too_many_dimensions_fails]. *)
Example test_setitem_illegal :
  let h := Hash_init "blah" "scoob" None in
  Hash_setitem h (KeyScalar (SStr "stu:123")) (Some (VInt 123)) fresh
    = Raise (AssertionError "Illegal delimiter in key.") fresh ∧
  Hash_setitem h (KeyScalar (SStr (repeat_str "a" 1025))) (Some (VInt 100)) fresh
    = Raise (AssertionError "Key is too long (1025). Max is 1024.") fresh ∧
  Hash_setitem h (KeyTuple (replicate 18 (SStr "a"))) (Some (VInt 1000)) fresh
    = Raise (AssertionError "Too many dimensions (18) for hash. Max is 16") fresh.
Proof. vm_compute. done. Qed.

(** [test_getitem_returns_default_value_if_none] *)
Example test_getitem_default :
  eval (Hash_getitem (Hash_init "blah" "scoob" (Some (VInt 0)))
                     (KeyScalar (SStr "hello"))) fresh
  = Some (Some (VInt 0)).
Proof. vm_compute. reflexivity. Qed.

(** [test_items_multi_hash_returns_kv_pairs]: the entries under dimension 0,
    before any commit. *)
Example test_items_multi_hash :
  let h := Hash_init "blah" "scoob" (Some (VInt 0)) in
  let s := exec (Hash_setitem h (KeyTuple [SInt 0; SStr "1"]) (Some (VInt 123))) fresh in
  let s := exec (Hash_setitem h (KeyTuple [SInt 0; SStr "2"]) (Some (VInt 456))) s in
  let s := exec (Hash_setitem h (KeyTuple [SInt 1; SStr "1"]) (Some (VInt 999))) s in
  eval (Hash__items h [SInt 0]) s
  = Some (<["blah.scoob:0:1" := Some (VInt 123)]>
           (<["blah.scoob:0:2" := Some (VInt 456)]> ∅)).
Proof. vm_compute. reflexivity. Qed.

(** [TestForeignHash.test_getitem] and [test_setitem] *)
Example test_foreign_hash :
  let f := ForeignHash_init "stustu" "balance" "colinbucks" "balances" in
  let h := Hash_init "colinbucks" "balances" None in
  let s := exec (Hash_setitem h (KeyScalar (SStr "howdy")) (Some (VInt 555))) fresh in
  eval (ForeignHash_getitem f (KeyScalar (SStr "howdy"))) s = Some (Some (VInt 555)) ∧
  ForeignHash_setitem f (KeyScalar (SStr "stu")) (Some (VInt 1234)) s
    = Raise ReferenceError s.
Proof. vm_compute. done. Qed.

(** [all] through a foreign hash lists a persisted cell of the target and a
    cell assigned through the owning hash in this context, before any
    commit, and asks the store for the persisted one only. *)
Example test_foreign_all :
  let f := ForeignHash_init "stustu" "balance" "colinbucks" "balances" in
  let h := Hash_init "colinbucks" "balances" None in
  let s0 := set_driver (mkDriver {["colinbucks.balances:stu" := "7"]} []) fresh in
  let s := exec (Hash_setitem h (KeyScalar (SStr "howdy")) (Some (VInt 555))) s0 in
  eval (ForeignHash_all f []) s = Some [Some (VInt 7); Some (VInt 555)] ∧
  db_calls (driver (exec (ForeignHash_all f []) s))
    = [db_seek "colinbucks.balances:"; db_next; db_next;
       db_get "colinbucks.balances:stu"] ∧
  db (driver (exec (ForeignHash_all f []) s)) = db (driver s0).
Proof. vm_compute. done. Qed.

(** A write of [None] is not read back: the cached [None] counts as a miss,
    and [get] returns what the store still holds until the commit. *)
Example test_get_after_set_none :
  let s := set_driver (mkDriver {["a" := "5"]} []) fresh in
  let r := CacheDriver_get "a" (CacheDriver_set "a" None s) in
  r.1 = Some (VInt 5) ∧ db_calls (driver r.2) = [db_get "a"] ∧
  (Driver_get "a" (driver (CacheDriver_commit r.2))).1 = None.
Proof. vm_compute. done. Qed.

(** A limit stops the scan of [Driver.iter]; without one it runs to the end
    of the prefix. *)
Example test_iter_limit :
  let d := mkDriver (list_to_map [("a:1", "1"); ("a:2", "2"); ("a:3", "3");
                                  ("b:1", "4")]) [] in
  (Driver_iter "a:" 0 d).1 = ["a:1"; "a:2"; "a:3"] ∧
  (Driver_iter "a:" 2 d).1 = ["a:1"; "a:2"] ∧
  db_calls (Driver_iter "a:" 2 d).2 = [db_seek "a:"; db_next; db_next].
Proof. vm_compute. done. Qed.

(** A slice that is the whole coordinate goes through as its string form. *)
Example test_bare_slice :
  Hash__validate_key (Hash_init "blah" "scoob" None)
                     (KeyScalar (SSlice (Some 1%Z) (Some 2%Z) None))
  = Ok "slice(1, 2, None)".
Proof. vm_compute. reflexivity. Qed.

(** ** Witnesses *)

(** C1 at work: a write of 1 under [a], then a read of [b] and a commit. *)
Lemma C1_read_your_own_writes_witness :
  Forall (λ o, untouched "a" o) [op_get "b"; op_commit] ∧
  let s1 := CacheDriver_set "a" (Some (VInt 1)) fresh in
  let s2 := run [op_get "b"; op_commit] s1 in
  driver s1 = driver fresh ∧
  (CacheDriver_get "a" s2).1 = Some (VInt 1) ∧
  driver (CacheDriver_get "a" s2).2 = driver s2.
Proof.
  split.
  - repeat constructor.
  - apply (C1_read_your_own_writes "a" (VInt 1) [op_get "b"; op_commit] fresh).
    repeat constructor.
Defined.

(** C2 at work: [a] is persisted as 5; the first read fetches it, and the
    reads, the write and the commit that follow leave the store alone. *)
Lemma C2_one_fetch_when_present_witness :
  let s := set_driver (mkDriver {["a" := "5"]} []) fresh in
  let ops := [op_get "a"; op_set "a" (Some (VInt 7)); op_get "a"; op_items "a"] in
  (CacheDriver_get "a" s).1 = Some (VInt 5) ∧
  Forall (λ o, keeps "a" o) ops ∧
  let s1 := (CacheDriver_get "a" s).2 in
  let s2 := run ops s1 in
  length (db_calls (driver s1)) ≤ S (length (db_calls (driver s))) ∧
  get_fetches "a" ops s1 = 0 ∧
  driver (CacheDriver_get "a" s2).2 = driver s2.
Proof.
  split; [reflexivity|]. split; [repeat constructor|].
  apply (C2_one_fetch_when_present "a" (VInt 5)
           [op_get "a"; op_set "a" (Some (VInt 7)); op_get "a"; op_items "a"]
           (set_driver (mkDriver {["a" := "5"]} []) fresh)).
  - reflexivity.
  - repeat constructor.
Defined.

(** C5 at work on the hash of the unit tests. *)
Lemma C5_coordinate_validation_witness :
  let h := Hash_init "blah" "scoob" None in
  let key := KeyTuple [SStr "stu"; SStr "ra:ghu"] in
  hash_delimiter h ≠ "" ∧
  (if invalid_key h key
   then ∃ msg,
     fails_clean (Hash_getitem h key) fresh (AssertionError msg) ∧
     fails_clean (Hash_setitem h key (Some (VInt 1))) fresh (AssertionError msg)
   else returns (Hash_getitem h key) fresh ∧
        returns (Hash_setitem h key (Some (VInt 1))) fresh) ∧
  (if invalid_key h (KeyTuple [SInt 0])
   then ∃ msg,
     fails_clean (Hash_all h [SInt 0]) fresh (AssertionError msg) ∧
     fails_clean (Hash_clear h [SInt 0]) fresh (AssertionError msg)
   else returns (Hash_all h [SInt 0]) fresh ∧
        returns (Hash_clear h [SInt 0]) fresh).
Proof.
  split; [done|].
  apply (C5_coordinate_validation (Hash_init "blah" "scoob" None)
           (KeyTuple [SStr "stu"; SStr "ra:ghu"]) [SInt 0] (Some (VInt 1)) fresh).
  done.
Defined.

(** C10 at work: [h[1, 1:2]]. *)
Lemma C10_slices_in_tuples_witness :
  let h := Hash_init "blah" "scoob" None in
  let l := [SInt 1; SSlice (Some 1%Z) (Some 2%Z) None] in
  Exists (λ k, is_slice k) l ∧
  (∃ msg,
     Hash__validate_key h (KeyTuple l) = Error (AssertionError msg) ∧
     (length l ≤ MAX_HASH_DIMENSIONS →
      Forall (λ k, is_slice k = false → illegal k = false) l →
      msg = "Slices prohibited in hashes.") ∧
     ∀ s value,
       fails_clean (Hash_getitem h (KeyTuple l)) s (AssertionError msg) ∧
       fails_clean (Hash_setitem h (KeyTuple l) value) s (AssertionError msg) ∧
       fails_clean (Hash_all h l) s (AssertionError msg) ∧
       fails_clean (Hash__items h l) s (AssertionError msg) ∧
       fails_clean (Hash_clear h l) s (AssertionError msg)) ∧
  ∀ a b c,
    Hash__validate_key h (KeyScalar (SSlice a b c))
    ≠ Error (AssertionError "Slices prohibited in hashes.").
Proof.
  split.
  - apply Exists_cons_tl, Exists_cons_hd. exact I.
  - apply (C10_slices_in_tuples (Hash_init "blah" "scoob" None)
             [SInt 1; SSlice (Some 1%Z) (Some 2%Z) None]).
    apply Exists_cons_tl, Exists_cons_hd. exact I.
Defined.

(** ** Counterexamples *)

(** C2 as stated fails where the store has nothing under the key: the first
    [get] fetches it, finds nothing and caches [None], and the second [get]
    of the same context fetches it again. *)
Lemma C2_refetch_when_absent :
  let r1 := CacheDriver_get "a" fresh in
  let r2 := CacheDriver_get "a" r1.2 in
  r1.1 = None ∧
  cache r1.2 !! "a" = Some None ∧
  db_calls (driver r1.2) = [db_get "a"] ∧
  db_calls (driver r2.2) = [db_get "a"; db_get "a"].
Proof. vm_compute. done. Qed.

(** C5 as stated fails on the length budget: under the prefix
    [blah.scoob:], of eleven characters, a coordinate of 1024 characters is
    longer than what is left of [MAX_KEY_SIZE], and yet the assignment
    returns and stages a write under a key of 1035 characters. *)
Lemma C5_prefix_not_counted :
  let h := Hash_init "blah" "scoob" None in
  let coordinate := repeat_str "a" 1024 in
  let prefix := hash_key_ h +:+ hash_delimiter h in
  MAX_KEY_SIZE - len prefix < len coordinate ∧
  MAX_KEY_SIZE < len (prefix +:+ coordinate) ∧
  ∃ s', Hash_setitem h (KeyScalar (SStr coordinate)) (Some (VInt 100)) fresh
          = Return () s' ∧
        pending_writes s' = [(prefix +:+ coordinate, Some (VInt 100))].
Proof.
  intros h coordinate prefix.
  assert (Hash__validate_key h (KeyScalar (SStr coordinate)) = Ok coordinate)
    as Hv by (vm_compute; reflexivity).
  split_and!.
  - apply Nat.ltb_lt. vm_compute. reflexivity.
  - apply Nat.ltb_lt. vm_compute. reflexivity.
  - eexists. split.
    + unfold Hash_setitem. rewrite bind_unfold, Hv. reflexivity.
    + unfold prefix. rewrite string_app_assoc. reflexivity.
Qed.

(** ** Where the code departs from its tests *)

(** C3. [items] does not leave out the entries whose value is [None]:
    after [set(k, None)] on an empty store, and also after a [get] that
    found nothing, [items] lists the key, with the value [None], where the
    claim, and the tests of [_items] after [clear], have no entry. *)
Lemma C3_items_keeps_none :
  let s1 := CacheDriver_set "blah.scoob:1" None fresh in
  let s2 := (CacheDriver_get "blah.scoob:2" fresh).2 in
  map_to_list (ContractDriver_items "blah.scoob:" s1).1
    = [("blah.scoob:1", None)] ∧
  map_to_list (ContractDriver_items "blah.scoob:" s2).1
    = [("blah.scoob:2", None)].
Proof. vm_compute. done. Qed.

(** C8. [write_event] lets a boolean through for an argument declared
    [int]: the runtime class of [True] is [bool], which is not among the
    classes the schema declares for [amount], and yet [write_event] returns
    and logs the event, where the claim, and the note of the tests that the
    check cannot be bypassed by a subclass, have it fail. *)
Lemma C8_bool_passes_for_int :
  let args := [("amount", mkArg (OneType t_int) None)] in
  let event_data : gmap string pyobj := {["amount" := Some (VBool true)]} in
  ∃ le s',
    LogEvent_init "currency" "Transfer" args = Ok le ∧
    ¬ (type_of (getitem event_data "amount") ∈ types_for (le_args le) "amount") ∧
    LogEvent_write_event le event_data fresh = Return () s' ∧
    events s' = [mkEvent "currency" "Transfer" "stu" "stu" []
                         [("amount", Some (VBool true))]].
Proof.
  cbv zeta. eexists _, _. split_and!.
  - vm_compute. reflexivity.
  - vm_compute. intros Hin. apply list_elem_of_singleton in Hin. discriminate.
  - vm_compute. reflexivity.
  - reflexivity.
Qed.


(** ** The further properties at work *)

(** X2 at work: the first key under [a.] of a store with two. *)
Lemma X2_iter_limit_witness :
  let d := mkDriver (<["a.x" := "1"]> (<["a.y" := "2"]> (<["b" := "3"]> ∅))) [] in
  0 < 1 ∧
  (Driver_iter "a." 1 d).1 = take 1 (Driver_iter "a." 0 d).1 ∧
  length (Driver_iter "a." 1 d).1 ≤ 1 ∧
  db (Driver_iter "a." 1 d).2 = db d.
Proof.
  split; [lia|].
  apply (X2_iter_limit "a." 1
           (mkDriver (<["a.x" := "1"]> (<["a.y" := "2"]> (<["b" := "3"]> ∅))) [])).
  lia.
Defined.

(** X4 at work: a fresh context is well formed, and stays so. *)
Lemma X4_context_invariant_witness :
  let ops := [op_set "a" (Some (VInt 1)); op_get "b"; op_set "a" None] in
  coherent fresh ∧
  coherent (run ops fresh) ∧
  coherent (CacheDriver_clear_pending_state (run ops fresh)) ∧
  ∀ k v, dict_get k (pending_writes (run ops fresh)) = Some (Some v) →
         (CacheDriver_get k (run ops fresh)).1 = Some v.
Proof.
  assert (coherent fresh) as Hfresh.
  { split; [apply NoDup_nil_2|]. split; [intros k v Hk; discriminate Hk|].
    intros k Hk. exact Hk. }
  split; [exact Hfresh|].
  apply (X4_context_invariant
           [op_set "a" (Some (VInt 1)); op_get "b"; op_set "a" None] fresh).
  exact Hfresh.
Defined.

(** X5 at work: a write, a read and a reset, and no commit. *)
Lemma X5_only_commit_writes_witness :
  let ops := [op_set "a" (Some (VInt 1)); op_get "a"; op_clear_pending_state] in
  Forall (λ o, is_commit o = false) ops ∧
  db (driver (run ops fresh)) = db (driver fresh) ∧
  (∃ new, db_calls (driver (run ops fresh)) = db_calls (driver fresh) ++ new ∧
          Forall (λ c, is_write_call c = false) new) ∧
  ∀ k, (Driver_get k (driver (run ops fresh))).1 = (Driver_get k (driver fresh)).1.
Proof.
  split; [repeat constructor|].
  apply (X5_only_commit_writes
           [op_set "a" (Some (VInt 1)); op_get "a"; op_clear_pending_state] fresh).
  repeat constructor.
Defined.

(** X6 at work: a write that is rolled back. *)
Lemma X6_rollback_witness :
  let ops := [op_set "a" (Some (VInt 1)); op_get "a"] in
  Forall (λ o, is_commit o = false) ops ∧
  let s1 := CacheDriver_clear_pending_state (run ops fresh) in
  cache s1 = ∅ ∧ reads s1 = ∅ ∧ pending_writes s1 = [] ∧
  (CacheDriver_get "a" s1).1 = decode (db (driver fresh) !! "a") ∧
  driver (CacheDriver_commit s1) = driver s1.
Proof.
  split; [repeat constructor|].
  apply (X6_rollback [op_set "a" (Some (VInt 1)); op_get "a"] fresh "a").
  repeat constructor.
Defined.

(** X7 at work: one pending write, committed. *)
Lemma X7_commit_is_durable_witness :
  let s := CacheDriver_set "a" (Some (VInt 1)) fresh in
  NoDup (pending_writes s).*1 ∧
  let s1 := CacheDriver_commit s in
  let stored :=
    match dict_get "a" (pending_writes s) with
    | Some v => encode <$> v
    | None => db (driver s) !! "a"
    end in
  db (driver s1) !! "a" = stored ∧
  (CacheDriver_get "a" (CacheDriver_clear_pending_state s1)).1 = decode stored.
Proof.
  split; [apply NoDup_singleton|].
  apply (X7_commit_is_durable (CacheDriver_set "a" (Some (VInt 1)) fresh) "a").
  apply NoDup_singleton.
Defined.

(** X9 at work: the key of the field [balances] of [currency]. *)
Lemma X9_make_key_injective_witness :
  driver_delimiter = "." ∧
  contains driver_delimiter "currency" = false ∧
  ContractDriver_make_key "currency" "balances" ArgsNone
    = ContractDriver_make_key "currency" "balances" ArgsNone ∧
  "currency" = "currency" ∧ "balances" = "balances".
Proof.
  split; [reflexivity|]. split; [reflexivity|]. split; [reflexivity|].
  eapply (X9_make_key_injective _ "currency" "balances"
           "currency" "balances"); reflexivity.
Defined.

(** X10 at work: [h['stu', 1]] and [h['stu', '1']] are one cell. *)
Lemma X10_hash_cells_witness :
  let h := Hash_init "blah" "scoob" None in
  let key1 := KeyTuple [SStr "stu"; SInt 1] in
  let key2 := KeyTuple [SStr "stu"; SStr "1"] in
  DELIMITER = ":" ∧
  coord_dims key1 ≠ [] ∧ coord_dims key2 ≠ [] ∧
  Hash__validate_key h key1 = Ok "stu:1" ∧
  Hash__validate_key h key2 = Ok "stu:1" ∧
  (hash_key_ h +:+ hash_delimiter h +:+ "stu:1"
     = hash_key_ h +:+ hash_delimiter h +:+ "stu:1"
   ↔ map str (coord_dims key1) = map str (coord_dims key2)).
Proof.
  split; [reflexivity|]. split; [discriminate|]. split; [discriminate|].
  split; [reflexivity|]. split; [reflexivity|].
  eapply (X10_hash_cells _ "blah" "scoob" None
           (KeyTuple [SStr "stu"; SInt 1]) (KeyTuple [SStr "stu"; SStr "1"])
           "stu:1" "stu:1");
    [reflexivity|discriminate|discriminate|reflexivity|reflexivity].
Defined.

(** X11 at work: [h['stu'] = 1], then [h['stu']] and [h['raghu']]. *)
Lemma X11_hash_set_get_witness :
  let h := Hash_init "blah" "scoob" None in
  let key1 := KeyScalar (SStr "stu") in
  let key2 := KeyScalar (SStr "raghu") in
  let s1 := CacheDriver_set "blah.scoob:stu" (Some (VInt 1)) fresh in
  DELIMITER = ":" ∧
  coord_dims key1 ≠ [] ∧ coord_dims key2 ≠ [] ∧
  Hash_setitem h key1 (Some (VInt 1)) fresh = Return () s1 ∧
  Hash__validate_key h key2 = Ok "raghu" ∧
  eval (Hash_getitem h key1) s1 = Some (normalize (Some (VInt 1))) ∧
  (map str (coord_dims key1) ≠ map str (coord_dims key2) →
   eval (Hash_getitem h key2) s1 = eval (Hash_getitem h key2) fresh).
Proof.
  split; [reflexivity|]. split; [discriminate|]. split; [discriminate|].
  split; [reflexivity|]. split; [reflexivity|].
  eapply (X11_hash_set_get _ "blah" "scoob" None
           (KeyScalar (SStr "stu")) (KeyScalar (SStr "raghu")) "raghu"
           (VInt 1) fresh
           (CacheDriver_set "blah.scoob:stu" (Some (VInt 1)) fresh));
    [reflexivity|discriminate|discriminate|reflexivity|reflexivity].
Defined.

(** X12 at work: [h.all('stu')] selects [h['stu', 'raghu']]. *)
Lemma X12_hash_prefix_witness :
  let h := Hash_init "blah" "scoob" None in
  let key := KeyTuple [SStr "stu"; SStr "raghu"] in
  DELIMITER = ":" ∧
  coord_dims key ≠ [] ∧
  Hash__prefix_for_args h [SStr "stu"] = Ok "blah.scoob:stu:" ∧
  Hash__validate_key h key = Ok "stu:raghu" ∧
  (startswith (hash_key_ h +:+ hash_delimiter h +:+ "stu:raghu")
              "blah.scoob:stu:" = true
   ↔ coord_string (hash_delimiter h) (KeyTuple [SStr "stu"]) = ""
     ∨ ∃ rest, rest ≠ [] ∧
               map str (coord_dims key) = map str [SStr "stu"] ++ rest).
Proof.
  split; [reflexivity|]. split; [discriminate|].
  split; [reflexivity|]. split; [reflexivity|].
  eapply (X12_hash_prefix _ "blah" "scoob" None [SStr "stu"]
           (KeyTuple [SStr "stu"; SStr "raghu"]) "stu:raghu" "blah.scoob:stu:");
    [reflexivity|discriminate|reflexivity|reflexivity].
Defined.

(** X13 at work: [h['stu',]] is [h['stu']]. *)
Lemma X13_one_dimension_witness :
  let h := Hash_init "blah" "scoob" None in
  hash_delimiter h ≠ "" ∧ 1 ≤ MAX_HASH_DIMENSIONS ∧
  is_slice (SStr "stu") = false ∧
  Hash__validate_key h (KeyTuple [SStr "stu"])
    = Hash__validate_key h (KeyScalar (SStr "stu")) ∧
  (str (SInt 5) = str (SStr "stu") →
   Hash__validate_key h (KeyScalar (SInt 5))
     = Hash__validate_key h (KeyScalar (SStr "stu"))).
Proof.
  split; [discriminate|]. split; [vm_compute; lia|]. split; [reflexivity|].
  apply (X13_one_dimension (Hash_init "blah" "scoob" None)
           (SStr "stu") (SInt 5));
    [discriminate|vm_compute; lia|reflexivity].
Defined.

(** X15 at work: a transfer event with one indexed argument. *)
Lemma X15_event_record_witness :
  let args := [("to", mkArg (OneType t_str) (Some true));
               ("amount", mkArg (TypeTuple [t_int; t_float]) None)] in
  let le := mkLogEvent "con.Transfer" (normalized args) "con" "Transfer" in
  let event_data : gmap string pyobj :=
    <["to" := Some (VStr "stu")]> (<["amount" := Some (VInt 5)]> ∅) in
  let s' := exec (LogEvent_write_event le event_data) fresh in
  NoDup args.*1 ∧
  LogEvent_init "con" "Transfer" args = Ok le ∧
  LogEvent_write_event le event_data fresh = Return () s' ∧
  dom event_data = list_to_set args.*1 ∧
  length (rt_calls s') = length (rt_calls fresh) + length args ∧
  ∃ e, events s' = events fresh ++ [e] ∧
       ev_indexed_args e ++ ev_non_indexed_args e ≡ₚ map_to_list event_data ∧
       length (ev_indexed_args e) ≤ 3.
Proof.
  assert (NoDup ["to"; "amount"]) as Hnd.
  { apply NoDup_cons. split; [|apply NoDup_singleton].
    intros Hin%list_elem_of_singleton. discriminate Hin. }
  split; [exact Hnd|]. split; [reflexivity|]. split; [reflexivity|].
  apply (X15_event_record "con" "Transfer"
           [("to", mkArg (OneType t_str) (Some true));
            ("amount", mkArg (TypeTuple [t_int; t_float]) None)]
           (mkLogEvent "con.Transfer"
              (normalized [("to", mkArg (OneType t_str) (Some true));
                           ("amount", mkArg (TypeTuple [t_int; t_float]) None)])
              "con" "Transfer")
           (<["to" := Some (VStr "stu")]> (<["amount" := Some (VInt 5)]> ∅))
           fresh);
    [exact Hnd|reflexivity|reflexivity].
Defined.

(** X16 at work: a balance is set, and the supply reads as before. *)
Lemma X16_hset_hget_witness :
  let s1 := ContractDriver_hset "currency" "balances" (Some (VInt 1)) fresh in
  driver_delimiter = "." ∧
  (ContractDriver_hget "currency" "balances" s1).1 = Some (VInt 1) ∧
  driver s1 = driver fresh ∧
  ∀ c2 f2,
    contains driver_delimiter "currency" = false →
    contains driver_delimiter c2 = false →
    (c2, f2) ≠ ("currency", "balances") →
    (ContractDriver_hget c2 f2 s1).1 = (ContractDriver_hget c2 f2 fresh).1.
Proof.
  split; [reflexivity|].
  eapply (X16_hset_hget _ "currency" "balances" (VInt 1) fresh). reflexivity.
Defined.
